(** * hezof/log: the write pipeline of the file logger

    A shallow embedding of the package's record pool, header formatter,
    rotation policy, the two write paths and the backpressure daemon,
    followed by the properties the specification states about them.

    Conventions.  Go's [int], [int64] and [uint8] values are [Z]; the two
    places where the code does arithmetic that can leave the 64-bit range
    wrap explicitly ([wrap64]).  [[]byte] is [list byte].  A [*record] is a
    record value that carries its address.  Everything the code reaches
    through the operating system (directory, open descriptors, clock,
    standard streams) lives in one [World] value that is threaded through
    the calls.  The sink mutex serialises [WriteDirect] and [Flush]; each of
    them is therefore one atomic transition of the model. *)

From Stdlib Require Import ZArith Lia.
From Stdlib.Strings Require Import Byte Ascii String.
From stdpp Require Import gmap strings list fin_maps pretty.

Local Open Scope Z_scope.

(** ** Machine integers *)

Definition wrap64 (x : Z) : Z := (x + 2 ^ 63) mod 2 ^ 64 - 2 ^ 63.

Definition inInt64 (x : Z) : Prop := - 2 ^ 63 <= x < 2 ^ 63.

(** ** Byte slices

    A slice is its visible bytes together with the capacity of the backing
    array.  [append] reuses the array when the result fits and reallocates
    otherwise; the capacity chosen on reallocation is the runtime's
    business and is a parameter [grow] of every definition that appends. *)

Record slice := mkSlice { data : list byte; cap : Z }.

Definition len (s : slice) : Z := Z.of_nat (length (data s)).

Definition make0 (c : Z) : slice := mkSlice [] c.

(** [s[0:0]] *)
Definition reslice0 (s : slice) : slice := mkSlice [] (cap s).

Definition append (grow : Z -> Z -> Z) (s : slice) (bs : list byte) : slice :=
  let n := len s + Z.of_nat (length bs) in
  if n <=? cap s then mkSlice (data s ++ bs) (cap s)
  else mkSlice (data s ++ bs) (grow (cap s) n).

Definition bytes_of (s : string) : list byte := list_byte_of_string s.

(** ** The clock *)

Record Time := mkTime {
  t_year : Z; t_month : Z; t_day : Z;
  t_hour : Z; t_minute : Z; t_second : Z;
  t_weekday : Z
}.

Definition validTime (t : Time) : Prop :=
  0 <= t_year t <= 9999 /\ 1 <= t_month t <= 12 /\ 1 <= t_day t <= 31 /\
  0 <= t_hour t <= 23 /\ 0 <= t_minute t <= 59 /\ 0 <= t_second t <= 59 /\
  0 <= t_weekday t <= 6.

(** ** Constants of the package *)

Definition SuffixFormat : string := ".150405".

Definition CycleOff : Z := 0.
Definition CycleHourly : Z := 1.
Definition CycleDaily : Z := 2.
Definition CycleWeekly : Z := 3.
Definition CycleMonthly : Z := 4.

Definition LevelDebug : Z := 0.
Definition LevelInfo : Z := 1.
Definition LevelWarn : Z := 2.
Definition LevelError : Z := 3.
Definition LevelOff : Z := 4.

Definition defaultBufferLength : Z := 256 * 1024.
Definition defaultBufferPeriod : Z := 15 * 1000000000.
Definition defaultRecordLength : Z := 2048.
Definition defaultRecordFactor : Z := 10.

Definition STDOUT : string := "stdout".
Definition STDERR : string := "stderr".

Definition skipBase : Z := 2.
Definition headerLength : nat := 26.

Definition datetimeSeparator : byte := "-"%byte.
Definition space : byte := " "%byte.
Definition colon : byte := ":"%byte.
Definition minus : byte := "-"%byte.
Definition newline : byte := x0a.
Definition stackLineSeparator : byte := "|"%byte.

Definition levels : list string := ["DEBUG"; "INFO"; "WARN"; "ERROR"; "FATAL"]%string.
Definition digits : list byte :=
  ["0"; "1"; "2"; "3"; "4"; "5"; "6"; "7"; "8"; "9"]%byte.

(** ** Records *)

Record record := mkRecord {
  addr : nat;              (* identity of the [*record] *)
  buffer : slice;
  header : list byte;      (* [headerLength]byte *)
  month : Z;
  week : Z;
  day : Z;
  hour : Z;
  minute : Z
}.

Definition set_buffer (b : slice) (r : record) : record :=
  mkRecord (addr r) b (header r) (month r) (week r) (day r) (hour r) (minute r).

Definition set_header (h : list byte) (r : record) : record :=
  mkRecord (addr r) (buffer r) h (month r) (week r) (day r) (hour r) (minute r).

(** [digits[i]]: an index outside the table is a run-time panic. *)
Definition digit (i : Z) : option byte :=
  if (i <? 0) || (10 <=? i) then None else digits !! Z.to_nat i.

(** Stores into [r.header], in the order of the source. *)
Fixpoint stores (h : list byte) (ws : list (nat * byte)) : list byte :=
  match ws with
  | [] => h
  | (i, b) :: ws' => stores (<[i := b]> h) ws'
  end.

Local Close Scope Z_scope.
Local Open Scope byte_scope.

(** The [switch] of [Header]: the stores of the selected case and the
    length of the slice of the header array it appends. *)
Definition levelStores (level : Z) : list (nat * byte) * nat :=
  if (level =? LevelDebug)%Z then
    ([(20, "D"); (21, "E"); (22, "B"); (23, "U"); (24, "G"); (25, space)], 26)
  else if (level =? LevelInfo)%Z then
    ([(20, "I"); (21, "N"); (22, "F"); (23, "O"); (24, space)], 25)
  else if (level =? LevelWarn)%Z then
    ([(20, "W"); (21, "A"); (22, "R"); (23, "N"); (24, space)], 25)
  else if (level =? LevelError)%Z then
    ([(20, "E"); (21, "R"); (22, "R"); (23, "O"); (24, "R"); (25, space)], 26)
  else
    ([(20, "<"); (21, "n"); (22, "i"); (23, "l"); (24, ">"); (25, space)], 26).

Local Close Scope byte_scope.
Local Open Scope Z_scope.

Section Formatter.

(** The runtime's capacity choice when [append] reallocates. *)
Variable grow : Z -> Z -> Z.

(** [record.Header]: reads the clock once, stores hour, day, weekday and
    month on the record, renders the date and time by explicit digit
    decomposition and appends the first 26 or 25 bytes of the header
    array to the buffer.  [None] is an index-out-of-range panic. *)
Definition Header (t : Time) (level : Z) (r : record) : option record :=
  let yr := t_year t in
  let mn := t_month t in
  let dy := t_day t in
  let hr := t_hour t in
  let mi := t_minute t in
  let ss := t_second t in
  let r := mkRecord (addr r) (buffer r) (header r) mn (t_weekday t) dy hr (minute r) in
  y3 ← digit (Z.quot yr 1000);
  let yr := Z.rem yr 1000 in
  y2 ← digit (Z.quot yr 100);
  let yr := Z.rem yr 100 in
  y1 ← digit (Z.quot yr 10);
  let yr := Z.rem yr 10 in
  y0 ← digit yr;
  m1 ← digit (Z.quot mn 10);
  m0 ← digit (Z.rem mn 10);
  d1 ← digit (Z.quot dy 10);
  d0 ← digit (Z.rem dy 10);
  h1 ← digit (Z.quot hr 10);
  h0 ← digit (Z.rem hr 10);
  i1 ← digit (Z.quot mi 10);
  i0 ← digit (Z.rem mi 10);
  s1 ← digit (Z.quot ss 10);
  s0 ← digit (Z.rem ss 10);
  let h := stores (header r)
    [(0, y3); (1, y2); (2, y1); (3, y0); (4, datetimeSeparator);
     (5, m1); (6, m0); (7, datetimeSeparator);
     (8, d1); (9, d0); (10, space);
     (11, h1); (12, h0); (13, colon);
     (14, i1); (15, i0); (16, colon);
     (17, s1); (18, s0); (19, space)]%nat in
  let '(ws, n) := levelStores level in
  let h := stores h ws in
  Some (set_buffer (append grow (buffer r) (take n h)) (set_header h r)).

(** [record.Location]: [caller] is what [runtime.Caller(skip)] answers,
    [None] when it reports [!ok]. *)
Definition Location (caller : option (string * Z)) (r : record) : record :=
  let '(file, line) := default ("???"%string, 1) caller in
  let b := append grow (buffer r) (bytes_of file) in
  let b := append grow b [colon] in
  let b := append grow b (bytes_of (pretty line)) in
  let b := append grow b [space; minus; space] in
  set_buffer b r.

(** [record.Printf]: [msg] is the text [fmt.Appendf] renders. *)
Definition Printf (msg : list byte) (r : record) : record :=
  let b := append grow (buffer r) msg in
  let b := append grow b [newline] in
  set_buffer b r.

End Formatter.

(** [record.PrintStack]: [frames] are the answers of [runtime.Caller(i)]
    for [i = 1, 2, ...] up to the first [!ok]. *)
Fixpoint PrintStack (grow : Z -> Z -> Z) (frames : list (string * Z)) (skip : Z)
    (r : record) : record :=
  match frames with
  | [] => r
  | (file, line) :: frames' =>
      match String.index 0 "/src/runtime/" file with
      | Some _ => PrintStack grow frames' skip r
      | None =>
          if 0 <? skip then PrintStack grow frames' (skip - 1) r
          else
            let b := append grow (buffer r) (bytes_of file) in
            let b := append grow b [colon] in
            let b := append grow b (bytes_of (pretty line)) in
            let b := append grow b [stackLineSeparator] in
            PrintStack grow frames' skip (set_buffer b r)
      end
  end.

(** ** The record pool

    [sync.Pool] may hand back any item it holds, may ignore what it holds
    and call [New], and may drop items at any time.  The model keeps the
    held items in a list; the caller of [Get] supplies the pool's choice
    ([Some i]: the i-th held item, anything else: [New]) and [evict] is the
    collector dropping an item.  [New] allocates at the next free address. *)

Record records := mkRecords {
  pool : list record;
  nextAddr : nat;
  recordBytes : Z;          (* captured by the [New] closure *)
  threshold : Z
}.

Definition createRecords (recordBytes recordFactor : Z) : records :=
  mkRecords [] 0 recordBytes (wrap64 (recordBytes * recordFactor)).

(** The [New] closure; [make] panics on a negative capacity. *)
Definition poolNew (rs : records) : option (record * records) :=
  if recordBytes rs <? 0 then None
  else Some (mkRecord (nextAddr rs) (make0 (recordBytes rs))
               (replicate headerLength x00) 0 0 0 0 0,
             mkRecords (pool rs) (S (nextAddr rs)) (recordBytes rs) (threshold rs)).

Definition poolGet (pick : option nat) (rs : records) : option (record * records) :=
  match pick with
  | Some i =>
      match pool rs !! i with
      | Some r =>
          Some (r, mkRecords (delete i (pool rs)) (nextAddr rs)
                     (recordBytes rs) (threshold rs))
      | None => poolNew rs
      end
  | None => poolNew rs
  end.

Definition poolPut (r : record) (rs : records) : records :=
  mkRecords (r :: pool rs) (nextAddr rs) (recordBytes rs) (threshold rs).

Definition evict (i : nat) (rs : records) : records :=
  mkRecords (delete i (pool rs)) (nextAddr rs) (recordBytes rs) (threshold rs).

(** [records.Get] *)
Definition Get (pick : option nat) (rs : records) : option (record * records) :=
  '(r, rs') ← poolGet pick rs;
  Some (set_buffer (reslice0 (buffer r)) r, rs').

(** [records.Put] *)
Definition Put (r : record) (rs : records) : records :=
  if cap (buffer r) <? threshold rs then poolPut r rs else rs.

(** ** The operating system

    A directory maps paths to inodes, inodes carry the file contents and an
    open descriptor points at an inode, so a file keeps its content when its
    directory entry is renamed.  [names] keeps the name each file was
    opened under, which its errors quote.  [renames] records every
    [os.Rename] call, [denied] lists the paths the process may not open and
    [diskFull] makes writes to regular files fail; the last two let the
    environment produce the failures the code has branches for. *)

(** The causes of the failures the model's operating system produces:
    [os.ErrClosed] and the system errors ENOENT, EEXIST, EACCES and ENOSPC,
    each with the text of its [Error()]. *)
Inductive errno :=
  | ErrClosed | ErrNotExist | ErrExist | ErrPermission | ErrNoSpace.

Definition errnoText (e : errno) : string :=
  match e with
  | ErrClosed => "file already closed"
  | ErrNotExist => "no such file or directory"
  | ErrExist => "file exists"
  | ErrPermission => "permission denied"
  | ErrNoSpace => "no space left on device"
  end.

Global Instance errno_eq_dec : EqDecision errno.
Proof. solve_decision. Defined.

(** The errors the package handles: the [*os.PathError] of a failed [os]
    call, which names the operation and the path beside the cause, and the
    sentinel [os.ErrProcessDone] the daemon returns. *)
Inductive error :=
  | PathError (op path : string) (cause : errno)
  | ErrProcessDone.

(** [err.Error()], what [%v] prints. *)
Definition errorText (e : error) : string :=
  match e with
  | PathError op path cause => op +:+ " " +:+ path +:+ ": " +:+ errnoText cause
  | ErrProcessDone => "os: process already finished"
  end.

(** The cause under a [*os.PathError], as [os.IsExist] and
    [os.IsNotExist] look for it. *)
Definition underlying (e : option error) : option errno :=
  match e with
  | Some (PathError _ _ cause) => Some cause
  | _ => None
  end.

Global Instance error_eq_dec : EqDecision error.
Proof. solve_decision. Defined.

(** [*os.File] *)
Inductive osFile := Stdout | Stderr | Fd (fd : nat).

Global Instance osFile_eq_dec : EqDecision osFile.
Proof. solve_decision. Defined.

Record World := mkWorld {
  dir : gmap string nat;
  inodes : gmap nat (list byte);
  fds : gmap nat nat;
  names : gmap nat string;
  nextIno : nat;
  nextFd : nat;
  now : Time;
  stdout : list byte;
  stderr : list byte;
  renames : list (string * string);
  denied : gset string;
  diskFull : bool
}.

Definition set_now (t : Time) (w : World) : World :=
  mkWorld (dir w) (inodes w) (fds w) (names w) (nextIno w) (nextFd w) t
          (stdout w) (stderr w) (renames w) (denied w) (diskFull w).

(** The content of the file a path names. *)
Definition readFile (w : World) (path : string) : option (list byte) :=
  ino ← dir w !! path; inodes w !! ino.

(** [fmt.Fprintf(os.Stderr, ...)] with the rendered text. *)
Definition eprint (s : string) (w : World) : World :=
  mkWorld (dir w) (inodes w) (fds w) (names w) (nextIno w) (nextFd w) (now w)
          (stdout w) (stderr w ++ bytes_of s) (renames w) (denied w) (diskFull w).

(** [os.Stat]: [None] is success (a non-nil [FileInfo]), [Some e] the error
    (and a nil [FileInfo]). *)
Definition os_Stat (w : World) (path : string) : option error :=
  match dir w !! path with
  | Some _ => None
  | None => Some (PathError "stat" path ErrNotExist)
  end.

Definition os_IsExist (e : option error) : bool :=
  bool_decide (underlying e = Some ErrExist).
Definition os_IsNotExist (e : option error) : bool :=
  bool_decide (underlying e = Some ErrNotExist).

(** [os.OpenFile(path, O_WRONLY|O_CREATE|O_APPEND, 0666)] *)
Definition os_OpenFile (path : string) (w : World) : (osFile + error) * World :=
  if bool_decide (path = ""%string) then (inr (PathError "open" path ErrNotExist), w)
  else if bool_decide (path ∈ denied w) then (inr (PathError "open" path ErrPermission), w)
  else
    match dir w !! path with
    | Some ino =>
        (inl (Fd (nextFd w)),
         mkWorld (dir w) (inodes w) (<[nextFd w := ino]> (fds w))
                 (<[nextFd w := path]> (names w)) (nextIno w)
                 (S (nextFd w)) (now w) (stdout w) (stderr w) (renames w)
                 (denied w) (diskFull w))
    | None =>
        (inl (Fd (nextFd w)),
         mkWorld (<[path := nextIno w]> (dir w)) (<[nextIno w := []]> (inodes w))
                 (<[nextFd w := nextIno w]> (fds w))
                 (<[nextFd w := path]> (names w)) (S (nextIno w))
                 (S (nextFd w)) (now w) (stdout w) (stderr w) (renames w)
                 (denied w) (diskFull w))
    end.

(** [os.File.Name]: the name the file was opened under. *)
Definition fileName (f : osFile) (w : World) : string :=
  match f with
  | Stdout => "/dev/stdout"
  | Stderr => "/dev/stderr"
  | Fd n => default ""%string (names w !! n)
  end.

(** [os.File.Write]: all of the bytes or an error. *)
Definition os_Write (f : osFile) (bs : list byte) (w : World) : option error * World :=
  match f with
  | Stdout =>
      (None, mkWorld (dir w) (inodes w) (fds w) (names w) (nextIno w) (nextFd w) (now w)
                     (stdout w ++ bs) (stderr w) (renames w) (denied w) (diskFull w))
  | Stderr =>
      (None, mkWorld (dir w) (inodes w) (fds w) (names w) (nextIno w) (nextFd w) (now w)
                     (stdout w) (stderr w ++ bs) (renames w) (denied w) (diskFull w))
  | Fd n =>
      match fds w !! n with
      | None => (Some (PathError "write" (fileName f w) ErrClosed), w)
      | Some ino =>
          if diskFull w then (Some (PathError "write" (fileName f w) ErrNoSpace), w)
          else
            (None,
             mkWorld (dir w) (<[ino := default [] (inodes w !! ino) ++ bs]> (inodes w))
                     (fds w) (names w) (nextIno w) (nextFd w) (now w) (stdout w) (stderr w)
                     (renames w) (denied w) (diskFull w))
      end
  end.

(** [os.File.Close]; the callers ignore its result.  The sink never closes
    a standard stream ([Close] skips them and [rotating] runs only on
    regular files), so closing one is left without effect. *)
Definition os_Close (f : osFile) (w : World) : World :=
  match f with
  | Fd n =>
      mkWorld (dir w) (inodes w) (delete n (fds w)) (names w) (nextIno w) (nextFd w) (now w)
              (stdout w) (stderr w) (renames w) (denied w) (diskFull w)
  | _ => w
  end.

(** [os.Rename]; the caller ignores its result.  A missing source leaves
    the directory as it is. *)
Definition os_Rename (old new : string) (w : World) : World :=
  let d := match dir w !! old with
           | Some ino => <[new := ino]> (delete old (dir w))
           | None => dir w
           end in
  mkWorld d (inodes w) (fds w) (names w) (nextIno w) (nextFd w) (now w)
          (stdout w) (stderr w) (renames w ++ [(old, new)]) (denied w) (diskFull w).

(** [os.File.Sync] changes nothing the model observes. *)
Definition os_Sync (f : osFile) (w : World) : World := w.

(** [strings.ToLower] as it acts on a string of ASCII bytes: the letters A
    to Z are lowered and every other byte stays.  [ToFile] only compares
    the result with [stdout] and [stderr]; the library's treatment of a
    string with a byte outside ASCII is [strings_ToLower] further down, and
    [ToFile_lowering] relates the two. *)
Definition lowerAscii (a : ascii) : ascii :=
  let n := nat_of_ascii a in
  if (65 <=? n)%nat && (n <=? 90)%nat then ascii_of_nat (n + 32) else a.

Fixpoint ToLower (s : string) : string :=
  match s with
  | EmptyString => EmptyString
  | String a s' => String (lowerAscii a) (ToLower s')
  end.

(** [ToFile] *)
Definition ToFile (path : string) (w : World) : (osFile + error) * World :=
  let l := ToLower path in
  if bool_decide (l = STDOUT) then (inl Stdout, w)
  else if bool_decide (l = STDERR) then (inl Stderr, w)
  else os_OpenFile path w.

(** ** [bufio.Writer] *)

Record Writer := mkWriter {
  wr : osFile;
  wbuf : list byte;       (* buf[0:n] *)
  wsize : Z;              (* len(buf) *)
  werr : option error
}.

Definition NewWriterSize (f : osFile) (size : Z) : Writer :=
  mkWriter f [] (if size <=? 0 then 4096 else size) None.

Definition Buffered (b : Writer) : Z := Z.of_nat (length (wbuf b)).
Definition Available (b : Writer) : Z := wsize b - Buffered b.

(** [bufio.Writer.Flush] *)
Definition bufio_Flush (b : Writer) (w : World) : option error * Writer * World :=
  match werr b with
  | Some e => (Some e, b, w)
  | None =>
      if Buffered b =? 0 then (None, b, w)
      else
        match os_Write (wr b) (wbuf b) w with
        | (Some e, w') => (Some e, mkWriter (wr b) (wbuf b) (wsize b) (Some e), w')
        | (None, w') => (None, mkWriter (wr b) [] (wsize b) None, w')
        end
  end.

(** The loop of [bufio.Writer.Write]: while the bytes do not fit and no
    error is pending, either write them through (empty buffer) or fill the
    buffer and flush it.  One pass empties the buffer or sets the error, so
    three passes always reach the loop's exit condition
    ([bufio_loop_exit]). *)
Fixpoint bufio_loop (fuel : nat) (b : Writer) (p : list byte) (w : World)
    : Writer * list byte * World :=
  match fuel with
  | O => (b, p, w)
  | S fuel' =>
      if (Available b <? Z.of_nat (length p)) && bool_decide (werr b = None) then
        if Buffered b =? 0 then
          match os_Write (wr b) p w with
          | (Some e, w') => bufio_loop fuel' (mkWriter (wr b) (wbuf b) (wsize b) (Some e)) p w'
          | (None, w') => bufio_loop fuel' b [] w'
          end
        else
          let n := Z.to_nat (Available b) in
          let b1 := mkWriter (wr b) (wbuf b ++ take n p) (wsize b) (werr b) in
          let '(_, b2, w') := bufio_Flush b1 w in
          bufio_loop fuel' b2 (drop n p) w'
      else (b, p, w)
  end.

(** [bufio.Writer.Write] *)
Definition bufio_Write (b : Writer) (p : list byte) (w : World)
    : option error * Writer * World :=
  let '(b', p', w') := bufio_loop 3 b p w in
  match werr b' with
  | Some e => (Some e, b', w')
  | None => (None, mkWriter (wr b') (wbuf b' ++ p') (wsize b') None, w')
  end.

(** [time.Time.Format], for the layouts built from literal characters and
    the reference tokens [15] (hour), [04] (minute) and [05] (second), which
    is what [SuffixFormat] uses. *)
Definition twoDigits (n : Z) : string := pretty (n / 10) +:+ pretty (n mod 10).

Fixpoint Format (layout : string) (t : Time) : string :=
  match layout with
  | String "1" (String "5" rest) => twoDigits (t_hour t) +:+ Format rest t
  | String "0" (String "4" rest) => twoDigits (t_minute t) +:+ Format rest t
  | String "0" (String "5" rest) => twoDigits (t_second t) +:+ Format rest t
  | String a rest => String a (Format rest t)
  | EmptyString => EmptyString
  end.

(** ** Configuration *)

Record FileConfig := mkFileConfig {
  File : string;
  Level : Z;
  RotateBytes : Z;
  RotateCycle : Z;
  BufferLength : Z;
  BufferPeriod : Z;
  RecordLength : Z;
  RecordFactor : Z;
  DiscardThreshold : Z
}.

(** [new(FileConfig)] *)
Definition zeroConfig : FileConfig := mkFileConfig "" 0 0 0 0 0 0 0 0.

(** [mergeDefault]; the argument is a pointer, [None] is nil.  The result is
    the struct the returned pointer designates (for a non-nil argument the
    argument itself, updated in place). *)
Definition mergeDefault (fs : option FileConfig) : FileConfig :=
  let fs := match fs with None => zeroConfig | Some c => c end in
  mkFileConfig
    (if bool_decide (File fs = ""%string) then STDOUT else File fs)
    (Level fs)
    (RotateBytes fs)
    (RotateCycle fs)
    (if BufferLength fs <=? 0 then defaultBufferLength else BufferLength fs)
    (if BufferPeriod fs <=? 0 then defaultBufferPeriod else BufferPeriod fs)
    (if RecordLength fs <=? 0 then defaultRecordLength else RecordLength fs)
    (if RecordFactor fs <=? 0 then defaultRecordFactor else RecordFactor fs)
    (DiscardThreshold fs).

(** ** The sink *)

(** [chan *record] with a buffer *)
Record Chan := mkChan { queue : list record; capacity : Z; closed : bool }.

(** The two functions the [Write] field can hold. *)
Inductive WriteFn := UseWriteDirect | UseWriteDiscard.

Record fileLogger := mkFileLogger {
  c : FileConfig;
  level : Z;
  recs : records;
  file : osFile;
  writer : Writer;
  discard : option Chan;      (* [None] is the nil channel *)
  rotate : bool;
  rotateMonth : Z;
  rotateWeek : Z;
  rotateDay : Z;
  rotateHour : Z;
  rotateRemain : Z;
  rotateSuffix : string;
  Write : WriteFn
}.

Definition set_writer (b : Writer) (l : fileLogger) : fileLogger :=
  mkFileLogger (c l) (level l) (recs l) (file l) b (discard l) (rotate l)
    (rotateMonth l) (rotateWeek l) (rotateDay l) (rotateHour l)
    (rotateRemain l) (rotateSuffix l) (Write l).

Definition set_recs (rs : records) (l : fileLogger) : fileLogger :=
  mkFileLogger (c l) (level l) rs (file l) (writer l) (discard l) (rotate l)
    (rotateMonth l) (rotateWeek l) (rotateDay l) (rotateHour l)
    (rotateRemain l) (rotateSuffix l) (Write l).

Definition set_discard (ch : option Chan) (l : fileLogger) : fileLogger :=
  mkFileLogger (c l) (level l) (recs l) (file l) (writer l) ch (rotate l)
    (rotateMonth l) (rotateWeek l) (rotateDay l) (rotateHour l)
    (rotateRemain l) (rotateSuffix l) (Write l).

Definition set_rotateRemain (n : Z) (l : fileLogger) : fileLogger :=
  mkFileLogger (c l) (level l) (recs l) (file l) (writer l) (discard l) (rotate l)
    (rotateMonth l) (rotateWeek l) (rotateDay l) (rotateHour l)
    n (rotateSuffix l) (Write l).

(** The assignments of [rotating] after it has reopened the file: handle,
    fresh buffered writer, calendar snapshot, suffix and byte budget, the
    last three from one clock reading. *)
Definition reopened (f : osFile) (t : Time) (l : fileLogger) : fileLogger :=
  mkFileLogger (c l) (level l) (recs l) f
    (NewWriterSize f (BufferLength (c l))) (discard l) (rotate l)
    (t_month t) (t_weekday t) (t_day t) (t_hour t)
    (RotateBytes (c l)) (Format SuffixFormat t) (Write l).

(** The [for] loop of [rotating]: the first [count], counting upwards, whose
    name [os.Stat] does not find.  The loop has no bound of its own; a
    directory with [n] entries cannot hold [n + 1] distinct candidates, so
    [S n] passes suffice ([firstFree_total]). *)
Fixpoint firstFree (fuel : nat) (w : World) (rotateFile : string) (count : nat)
    : option string :=
  match fuel with
  | O => None
  | S fuel' =>
      let prefixFile := rotateFile +:+ "." +:+ pretty count in
      let err := os_Stat w prefixFile in
      if bool_decide (err ≠ None) || os_IsNotExist err then Some prefixFile
      else firstFree fuel' w rotateFile (S count)
  end.

(** The name [rotating] renames the active file to. *)
Definition rotateName (l : fileLogger) (w : World) : string :=
  let rotateFile := File (c l) +:+ "." +:+ rotateSuffix l in
  let err := os_Stat w rotateFile in
  if bool_decide (err = None) || os_IsExist err then
    default rotateFile (firstFree (S (size (dir w))) w rotateFile 0)
  else rotateFile.

(** [fileLogger.rotating] *)
Definition rotating (l : fileLogger) (w : World) : fileLogger * World :=
  let rotateFile := rotateName l w in
  let '(_, b, w) := bufio_Flush (writer l) w in
  let l := set_writer b l in
  let w := os_Close (file l) w in
  let w := os_Rename (File (c l)) rotateFile w in
  match ToFile (File (c l)) w with
  | (inr err, w) =>
      (l, eprint ("logger open file error: " +:+ File (c l) +:+ ", " +:+ errorText err) w)
  | (inl f, w) => (reopened f (now w) l, w)
  end.

(** The [switch] on the cycle in [WriteDirect]: whether the case selected by
    [RotateCycle] finds a difference between the record and the snapshot. *)
Definition cycleDue (l : fileLogger) (r : record) : bool :=
  let cy := RotateCycle (c l) in
  if cy =? CycleMonthly then
    bool_decide (month r ≠ rotateMonth l)
  else if cy =? CycleWeekly then
    bool_decide (month r ≠ rotateMonth l) || bool_decide (week r ≠ rotateWeek l)
  else if cy =? CycleDaily then
    bool_decide (month r ≠ rotateMonth l) || bool_decide (week r ≠ rotateWeek l)
    || bool_decide (day r ≠ rotateDay l)
  else if cy =? CycleHourly then
    bool_decide (month r ≠ rotateMonth l) || bool_decide (week r ≠ rotateWeek l)
    || bool_decide (day r ≠ rotateDay l) || bool_decide (hour r ≠ rotateHour l)
  else false.

(** The code from the label [__write__] to the end of [WriteDirect],
    followed by the deferred [Put]. *)
Definition writeRecord (r : record) (l : fileLogger) (w : World) : fileLogger * World :=
  let '(err, b, w) := bufio_Write (writer l) (data (buffer r)) w in
  let w := match err with
           | Some e => eprint ("logger write error: " +:+ errorText e) w
           | None => w
           end in
  (set_recs (Put r (recs l)) (set_writer b l), w).

(** [fileLogger.WriteDirect] *)
Definition WriteDirect (r : record) (l : fileLogger) (w : World) : fileLogger * World :=
  let '(l, w) :=
    if rotate l then
      if (CycleOff <? RotateCycle (c l)) && cycleDue l r then rotating l w
      else if 0 <? RotateBytes (c l) then
        let l := set_rotateRemain (wrap64 (rotateRemain l - len (buffer r))) l in
        if rotateRemain l <? 0 then rotating l w else (l, w)
      else (l, w)
    else (l, w) in
  writeRecord r l w.

(** [fileLogger.WriteDiscard]: a [select] with one send case and a default.
    The send is taken when the buffer has room; a nil channel is never
    ready; sending on a closed channel panics ([None]). *)
Definition WriteDiscard (r : record) (l : fileLogger) (w : World)
    : option (fileLogger * World) :=
  match discard l with
  | None => Some (l, w)
  | Some ch =>
      if closed ch then None
      else if Z.of_nat (length (queue ch)) <? capacity ch then
        Some (set_discard (Some (mkChan (queue ch ++ [r]) (capacity ch) false)) l, w)
      else Some (l, w)
  end.

(** [fileLogger.Flush] *)
Definition Flush (l : fileLogger) (w : World) : fileLogger * World :=
  let '(_, b, w) := bufio_Flush (writer l) w in
  (set_writer b l, os_Sync (file l) w).

(** [fileLogger.Close]; closing a closed channel panics ([None]). *)
Definition Close (l : fileLogger) (w : World) : option (fileLogger * World) :=
  l' ← match discard l with
       | None => Some l
       | Some ch =>
           if closed ch then None
           else Some (set_discard (Some (mkChan (queue ch) (capacity ch) true)) l)
       end;
  Some (l', match file l with
            | Fd n => os_Close (Fd n) w
            | _ => w
            end).

(** What a call can end in: a value, a returned error, or a panic. *)
Inductive result (A : Type) :=
  | Ok (a : A)
  | Err (e : error)
  | Panic (msg : string).
Arguments Ok {A} a.
Arguments Err {A} e.
Arguments Panic {A} msg.

(** [NewFileLogger]; the argument is a pointer, [None] is nil.  The first
    statement reads [c.File].  After [mergeDefault] the pointers [c] and
    [lgr.c] designate the same struct, so the later reads of [c.Level] and
    [c.DiscardThreshold] see the merged configuration.  The daemon started
    at the end is [daemon] below. *)
Definition NewFileLogger (cfg : option FileConfig) (w : World)
    : result fileLogger * World :=
  match cfg with
  | None => (Panic "invalid memory address or nil pointer dereference", w)
  | Some c0 =>
      match ToFile (File c0) w with
      | (inr err, w) => (Err err, w)
      | (inl f, w) =>
          let cm := mergeDefault (Some c0) in
          let rot := bool_decide (f ≠ Stdout) && bool_decide (f ≠ Stderr)
                     && ((0 <? RotateBytes cm) || (0 <? RotateCycle cm)) in
          let t := now w in
          let l :=
            mkFileLogger cm (Level cm)
              (createRecords (RecordLength cm) (RecordFactor cm))
              f (NewWriterSize f (BufferLength cm)) None rot
              (if rot then t_month t else 0) (if rot then t_weekday t else 0)
              (if rot then t_day t else 0) (if rot then t_hour t else 0)
              (if rot then RotateBytes cm else 0)
              (if rot then Format SuffixFormat t else ""%string)
              UseWriteDirect in
          if DiscardThreshold cm <=? 0 then (Ok l, w)
          else
            (Ok (mkFileLogger (c l) (level l) (recs l) (file l) (writer l)
                   (Some (mkChan [] (DiscardThreshold cm) false)) (rotate l)
                   (rotateMonth l) (rotateWeek l) (rotateDay l) (rotateHour l)
                   (rotateRemain l) (rotateSuffix l) UseWriteDiscard), w)
      end
  end.

(** [lgr.Write(r)] *)
Definition Write_call (r : record) (l : fileLogger) (w : World)
    : option (fileLogger * World) :=
  match Write l with
  | UseWriteDirect => Some (WriteDirect r l w)
  | UseWriteDiscard => WriteDiscard r l w
  end.

Section Emit.

Variable grow : Z -> Z -> Z.

(** What the environment answers during one logging call: the pool's
    choice, the caller's location, the rendered message and the frames of
    the stack. *)
Record Call := mkCall {
  pick : option nat;
  caller : option (string * Z);
  msg : list byte;
  frames : list (string * Z)
}.

(** The body shared by [Debug], [Info], [Warn] and [Error]: format the
    record, then hand it to [Write].  [fmtRecord] is the formatting part. *)
Definition fmtRecord (lv : Z) (k : Call) (l : fileLogger) (w : World)
    : option (record * fileLogger) :=
  '(r, rs) ← Get (pick k) (recs l);
  r ← Header grow (now w) lv r;
  let r := Location grow (caller k) r in
  let r := Printf grow (msg k) r in
  Some (r, set_recs rs l).

Definition emit (lv : Z) (k : Call) (l : fileLogger) (w : World)
    : option (fileLogger * World) :=
  '(r, l) ← fmtRecord lv k l w;
  Write_call r l w.

Definition Debug (k : Call) (l : fileLogger) (w : World) : option (fileLogger * World) :=
  if level l <=? LevelDebug then emit LevelDebug k l w else Some (l, w).

Definition Info (k : Call) (l : fileLogger) (w : World) : option (fileLogger * World) :=
  if level l <=? LevelInfo then emit LevelInfo k l w else Some (l, w).

Definition Warn (k : Call) (l : fileLogger) (w : World) : option (fileLogger * World) :=
  if level l <=? LevelWarn then emit LevelWarn k l w else Some (l, w).

Definition Error (k : Call) (l : fileLogger) (w : World) : option (fileLogger * World) :=
  if level l <=? LevelError then emit LevelError k l w else Some (l, w).

Definition ErrorStack (k : Call) (l : fileLogger) (w : World)
    : option (fileLogger * World) :=
  if level l <=? LevelError then
    '(r, l) ← fmtRecord LevelError k l w;
    Write_call (PrintStack grow (frames k) skipBase r) l w
  else Some (l, w).

End Emit.

(** ** The daemon

    The daemon runs beside the producers.  A run of the system is a list of
    events: a producer sending through [WriteDiscard], somebody calling
    [Close], the daemon's [select] taking the channel case or the ticker
    case, and a fault, which is a panic raised inside the current
    iteration.  A receive is ready when the queue holds a record or the
    channel is closed; an event that is not ready leaves the state as it
    is. *)

Inductive Event :=
  | EvSend (r : record)
  | EvClose
  | EvRecv
  | EvTick
  | EvFault (v : string).

(** How a call of [protectDaemon] ends: it returns an error value ([None] is
    nil), or it is still blocked in [select] when the events end. *)
Inductive Exit := Returns (e : option error) | Blocked.

(** The [for]/[select] loop of [protectDaemon] under its deferred [recover]:
    a panic is printed and the function returns its zero result, nil. *)
Fixpoint protectLoop (evs : list Event) (l : fileLogger) (w : World)
    : Exit * list Event * (fileLogger * World) :=
  match evs with
  | [] => (Blocked, [], (l, w))
  | EvSend r :: evs' =>
      match WriteDiscard r l w with
      | Some (l', w') => protectLoop evs' l' w'
      | None => protectLoop evs' l w
      end
  | EvClose :: evs' =>
      match Close l w with
      | Some (l', w') => protectLoop evs' l' w'
      | None => protectLoop evs' l w
      end
  | EvRecv :: evs' =>
      match discard l with
      | Some (mkChan (rc :: q) k cl) =>
          let '(l', w') := WriteDirect rc (set_discard (Some (mkChan q k cl)) l) w in
          protectLoop evs' l' w'
      | Some (mkChan [] _ true) => (Returns (Some ErrProcessDone), evs', (l, w))
      | _ => protectLoop evs' l w
      end
  | EvTick :: evs' =>
      let '(l', w') := Flush l w in protectLoop evs' l' w'
  | EvFault v :: evs' =>
      (Returns None, evs', (l, eprint ("daemon panic: " +:+ v) w))
  end.

(** [fileLogger.protectDaemon]; [time.NewTicker] panics on a non-positive
    period. *)
Definition protectDaemon (tk : Z) (evs : list Event) (l : fileLogger) (w : World)
    : Exit * list Event * (fileLogger * World) :=
  if tk <=? 0 then
    (Returns None, evs,
     (l, eprint ("daemon panic: " +:+ "non-positive interval for NewTicker") w))
  else protectLoop evs l w.

Inductive Status := Returned | Waiting | Restarting.

(** [fileLogger.daemon]: each unit of [fuel] is one call of
    [protectDaemon]; [Restarting] means the fuel ended between two calls. *)
Fixpoint daemon (fuel : nat) (tk : Z) (evs : list Event) (l : fileLogger) (w : World)
    : Status * (fileLogger * World) :=
  match fuel with
  | O => (Restarting, (l, w))
  | S fuel' =>
      match protectDaemon tk evs l w with
      | (Blocked, _, st) => (Waiting, st)
      | (Returns err, evs', (l', w')) =>
          if bool_decide (err = Some ErrProcessDone) then (Returned, (l', w'))
          else
            daemon fuel' tk evs' l'
              (eprint ("daemon error: " +:+ from_option errorText "<nil>" err) w')
      end
  end.

(** ** The rotation decision *)

(** The state in which [WriteDirect] reaches the label [__write__]. *)
Definition beforeWrite (r : record) (l : fileLogger) (w : World) : fileLogger * World :=
  if rotate l then
    if (CycleOff <? RotateCycle (c l)) && cycleDue l r then rotating l w
    else if 0 <? RotateBytes (c l) then
      let l := set_rotateRemain (wrap64 (rotateRemain l - len (buffer r))) l in
      if rotateRemain l <? 0 then rotating l w else (l, w)
    else (l, w)
  else (l, w).

(** Whether the size check of [WriteDirect] asks for a rollover. *)
Definition sizeDue (l : fileLogger) (r : record) : bool :=
  (0 <? RotateBytes (c l)) && (wrap64 (rotateRemain l - len (buffer r)) <? 0).

(** Whether [WriteDirect] calls [rotating] for this record: a function of
    the sink and the record alone. *)
Definition rotationDue (l : fileLogger) (r : record) : bool :=
  rotate l && (((CycleOff <? RotateCycle (c l)) && cycleDue l r) || sizeDue l r).

(** ** The specification's words

    The calendar comparison as the specification tables it: for each cycle
    the fields whose change asks for a rollover. *)
Definition calendarChanged (cycle : Z) (l : fileLogger) (r : record) : Prop :=
  (cycle = CycleMonthly /\ month r ≠ rotateMonth l) \/
  (cycle = CycleWeekly /\ (month r ≠ rotateMonth l \/ week r ≠ rotateWeek l)) \/
  (cycle = CycleDaily /\
     (month r ≠ rotateMonth l \/ week r ≠ rotateWeek l \/ day r ≠ rotateDay l)) \/
  (cycle = CycleHourly /\
     (month r ≠ rotateMonth l \/ week r ≠ rotateWeek l \/ day r ≠ rotateDay l \/
      hour r ≠ rotateHour l)).

(** ** Concrete inputs for the examples *)

(** A capacity policy for [append]: double, or what is needed if more. *)
Definition growDouble (old need : Z) : Z := Z.max (2 * old) need.

(** Friday 2024-03-15, 10:15:42. *)
Definition t0 : Time := mkTime 2024 3 15 10 15 42 5.

(** The next day, 00:00:07. *)
Definition t1 : Time := mkTime 2024 3 16 0 0 7 6.

(** An empty directory with the clock at [t0]. *)
Definition world0 : World := mkWorld ∅ ∅ ∅ ∅ 0 0 t0 [] [] [] ∅ false.

(** A freshly allocated record of the default size. *)
Definition record0 : record :=
  mkRecord 0 (make0 defaultRecordLength) (replicate headerLength x00) 0 0 0 0 0.

(** A record as [Header] leaves it at time [t], carrying [bs]. *)
Definition recordAt (a : nat) (t : Time) (bs : list byte) : record :=
  mkRecord a (mkSlice bs defaultRecordLength) (replicate headerLength x00)
    (t_month t) (t_weekday t) (t_day t) (t_hour t) 0.

Definition sizeConfig : FileConfig := mkFileConfig "app.log" 0 100 0 0 0 0 0 0.
Definition dailyConfig : FileConfig := mkFileConfig "app.log" 0 0 CycleDaily 0 0 0 0 0.
Definition discardConfig : FileConfig := mkFileConfig "app.log" 0 0 0 0 0 0 0 2.
Definition smallBufConfig : FileConfig := mkFileConfig "app.log" 0 0 CycleDaily 8 0 0 0 0.

(** The sink and the world [NewFileLogger] yields, for a call that
    succeeds. *)
Definition opened (cfg : FileConfig) (w : World) : option (fileLogger * World) :=
  match NewFileLogger (Some cfg) w with
  | (Ok l, w') => Some (l, w')
  | _ => None
  end.

(** The sinks the three configurations give in [world0]. *)
Definition sinkOf (cfg : FileConfig) : fileLogger :=
  let cm := mergeDefault (Some cfg) in
  let rot := (0 <? RotateBytes cm) || (0 <? RotateCycle cm) in
  mkFileLogger cm 0 (createRecords 2048 10) (Fd 0) (NewWriterSize (Fd 0) (BufferLength cm))
    (if 0 <? DiscardThreshold cm then Some (mkChan [] (DiscardThreshold cm) false)
     else None)
    rot
    (if rot then 3 else 0) (if rot then 5 else 0) (if rot then 15 else 0)
    (if rot then 10 else 0) (if rot then RotateBytes cm else 0)
    (if rot then ".101542" else "")%string
    (if 0 <? DiscardThreshold cm then UseWriteDiscard else UseWriteDirect).

(** [world0] after ["app.log"] has been created and opened. *)
Definition world1 : World :=
  mkWorld {[ "app.log"%string := 0%nat ]} {[ 0%nat := [] ]} {[ 0%nat := 0%nat ]}
          {[ 0%nat := "app.log"%string ]} 1 1 t0 [] [] [] ∅ false.

(** The header as the specification writes it: the decimal digits of the
    date and the time, then the level's name and one space. *)
Definition asciiDigit (d : Z) : byte := default x00 (Byte.of_N (Z.to_N (48 + d))).

Definition dec2 (n : Z) : list byte := [asciiDigit (n / 10); asciiDigit (n mod 10)].

Definition dec4 (n : Z) : list byte :=
  [asciiDigit (n / 1000); asciiDigit (n / 100 mod 10);
   asciiDigit (n / 10 mod 10); asciiDigit (n mod 10)].

(** [YYYY-MM-DD HH:MM:SS ], twenty bytes. *)
Definition stamp (t : Time) : list byte :=
  dec4 (t_year t) ++ "-"%byte :: dec2 (t_month t) ++ "-"%byte :: dec2 (t_day t) ++
  " "%byte :: dec2 (t_hour t) ++ ":"%byte :: dec2 (t_minute t) ++
  ":"%byte :: dec2 (t_second t) ++ [" "%byte].

Definition levelTag (lv : Z) : string :=
  if lv =? LevelDebug then "DEBUG"
  else if lv =? LevelInfo then "INFO"
  else if lv =? LevelWarn then "WARN"
  else if lv =? LevelError then "ERROR"
  else "<nil>".

(** The levels the logging methods pass to [Header]. *)
Definition emitted (lv : Z) : Prop :=
  lv = LevelDebug \/ lv = LevelInfo \/ lv = LevelWarn \/ lv = LevelError.

(** What a rendered entry holds after its header: [file:line - message] and
    the line terminator, with [???:1] for a caller the runtime does not
    know.  It depends on the call only, not on the level. *)
Definition afterHeader (k : Call) : list byte :=
  let '(file, line) := default ("???"%string, 1) (caller k) in
  bytes_of file ++ [colon] ++ bytes_of (pretty line) ++ [space; minus; space] ++
  msg k ++ [newline].

(** ** Runs of the pool

    What the users of a pool and the collector can do to it, in any order. *)
Inductive PoolOp :=
  | OpGet (pick : option nat)
  | OpPut (r : record)
  | OpEvict (i : nat).

(** The records the [OpGet]s of a run obtain, in order, and the pool at the
    end.  A [Get] that panics obtains nothing. *)
Fixpoint runPool (ops : list PoolOp) (rs : records) : list record * records :=
  match ops with
  | [] => ([], rs)
  | OpGet pick :: ops' =>
      match Get pick rs with
      | Some (r, rs') => let '(got, rs'') := runPool ops' rs' in (r :: got, rs'')
      | None => runPool ops' rs
      end
  | OpPut r :: ops' => runPool ops' (Put r rs)
  | OpEvict i :: ops' => runPool ops' (evict i rs)
  end.

(** A record that grew to 30000 bytes of capacity. *)
Definition oversized : record :=
  mkRecord 0 (mkSlice [] 30000) (replicate headerLength x00) 3 5 15 10 0.

(** The default pool after its first allocation, and a run on it that
    allocates, releases, reuses, evicts and releases [oversized] again. *)
Definition poolAfterFirstGet : records := mkRecords [] 1 2048 20480.

Definition poolRun : list PoolOp :=
  [OpGet None; OpPut (recordAt 1 t0 [x61]); OpGet (Some 0%nat); OpEvict 0;
   OpPut oversized; OpGet (Some 0%nat); OpGet None].

(** Whether the sink's queue has been closed. *)
Definition isClosed (l : fileLogger) : bool :=
  match discard l with
  | Some ch => closed ch
  | None => false
  end.


(** A run of the discard sink: one record sent, a fault, the record
    received, a tick, [Close], and the receive that finds the queue closed;
    the last tick is never looked at. *)
Definition daemonRun : list Event :=
  [EvSend (recordAt 1 t0 [x68; x69; x0a]); EvFault "boom"; EvRecv; EvTick;
   EvClose; EvRecv; EvTick].

(** Direct writes one after the other. *)
Definition writeAll (rs : list record) (l : fileLogger) (w : World) : fileLogger * World :=
  fold_left (fun st r => WriteDirect r st.1 st.2) rs (l, w).

(** A record whose buffer holds thirty times the byte [b]. *)
Definition rec30 (a : nat) (b : byte) : record := recordAt a t0 (replicate 30 b).

(** The scenario of the specification on concrete records: five records of
    thirty bytes through the sink of [sizeConfig], then a flush. *)
Definition fiveWrites : fileLogger * World :=
  let st := writeAll [rec30 1 x61; rec30 2 x62; rec30 3 x63; rec30 4 x64; rec30 5 x65]
              (sinkOf sizeConfig) world1 in
  Flush st.1 st.2.

(** [world1] with the rotated name and its first numbered variant taken. *)
Definition crowdedWorld : World :=
  mkWorld {[ "app.log"%string := 0%nat; "app.log..101542"%string := 1%nat;
             "app.log..101542.0"%string := 2%nat ]}
          {[ 0%nat := []; 1%nat := []; 2%nat := [] ]} {[ 0%nat := 0%nat ]}
          {[ 0%nat := "app.log"%string ]} 3 1 t0 [] [] [] ∅ false.

(** What the scenario comes to on five records: the rename log and the
    budget after the third, the fourth and the last write, and the two
    files after the final flush. *)
Definition sizeScenarioHolds (r1 r2 r3 r4 r5 : record) : Prop :=
  let st3 := writeAll [r1; r2; r3] (sinkOf sizeConfig) world1 in
  let st4 := WriteDirect r4 st3.1 st3.2 in
  let st5 := WriteDirect r5 st4.1 st4.2 in
  let fin := Flush st5.1 st5.2 in
  (renames st3.2 = [] /\ rotateRemain st3.1 = 10) /\
  (renames st4.2 = [("app.log", "app.log..101542")]%string /\ rotateRemain st4.1 = 100) /\
  (renames fin.2 = [("app.log", "app.log..101542")]%string /\ rotateRemain fin.1 = 70) /\
  readFile fin.2 "app.log..101542" =
    Some (data (buffer r1) ++ data (buffer r2) ++ data (buffer r3)) /\
  readFile fin.2 "app.log" = Some (data (buffer r4) ++ data (buffer r5)).

(** ** Destinations

    What has reached a destination, whether a write to it can succeed, and
    the world after a successful write of [bs] to it. *)
Definition written (f : osFile) (w : World) : list byte :=
  match f with
  | Stdout => stdout w
  | Stderr => stderr w
  | Fd n =>
      match fds w !! n with
      | Some ino => default [] (inodes w !! ino)
      | None => []
      end
  end.

Definition writable (f : osFile) (w : World) : Prop :=
  match f with
  | Fd n =>
      (exists ino, fds w !! n = Some ino /\ is_Some (inodes w !! ino)) /\
      diskFull w = false
  | _ => True
  end.

Definition appendTo (f : osFile) (bs : list byte) (w : World) : World :=
  (os_Write f bs w).2.

(** A sink whose buffered writer wraps the sink's own handle, has no
    pending error and can write. *)
Definition healthy (l : fileLogger) (w : World) : Prop :=
  wr (writer l) = file l /\ werr (writer l) = None /\
  0 < wsize (writer l) /\ writable (file l) w.

(** The bytes the sink has accepted: what reached the destination followed
    by what the buffered writer still holds. *)
Definition accepted (l : fileLogger) (w : World) : list byte :=
  written (file l) w ++ wbuf (writer l).

(** [world1] with ten bytes already in ["app.log"], and the non-rotating
    sink on it holding three more in its buffer. *)
Definition world2 : World :=
  mkWorld {[ "app.log"%string := 0%nat ]} {[ 0%nat := bytes_of "old entry" ++ [x0a] ]}
          {[ 0%nat := 0%nat ]} {[ 0%nat := "app.log"%string ]} 1 1 t0 [] [] [] ∅ false.

Definition plainConfig : FileConfig := mkFileConfig "app.log" 0 0 0 0 0 0 0 0.

Definition pendingSink : fileLogger :=
  set_writer (mkWriter (Fd 0) [x41; x42; x0a] 262144 None) (sinkOf plainConfig).

(** A file sink attached to its path: the sink's handle is an open
    descriptor of the inode the configured path names, the path is a
    regular path the process may open, and the inode has no other name. *)
Definition attached (l : fileLogger) (w : World) (n ino : nat) : Prop :=
  file l = Fd n /\ fds w !! n = Some ino /\ dir w !! File (c l) = Some ino /\
  (forall p, dir w !! p = Some ino -> p = File (c l)) /\
  (forall p i, dir w !! p = Some i -> (i < nextIno w)%nat) /\
  File (c l) ≠ ""%string /\ (File (c l) ∉ denied w) /\
  ToLower (File (c l)) ≠ STDOUT /\ ToLower (File (c l)) ≠ STDERR.

(** [pendingSink] with size rotation configured, on [world2] with an older
    rotated file beside the active one. *)
Definition rotatingSink : fileLogger :=
  set_writer (mkWriter (Fd 0) [x41; x42; x0a] 262144 None) (sinkOf sizeConfig).

Definition world3 : World :=
  mkWorld {[ "app.log"%string := 0%nat; "app.log..093000"%string := 1%nat ]}
          {[ 0%nat := bytes_of "old entry" ++ [x0a]; 1%nat := bytes_of "older" ]}
          {[ 0%nat := 0%nat ]} {[ 0%nat := "app.log"%string ]} 2 1 t0 [] [] [] ∅ false.

(** [world3] with the configured path closed to the process, and
    [rotatingSink] with a disk error pending in its writer. *)
Definition deniedWorld : World :=
  mkWorld (dir world3) (inodes world3) (fds world3) (names world3) 2 1 t0 [] [] []
          {[ "app.log"%string ]} false.

Definition brokenSink : fileLogger :=
  set_writer
    (mkWriter (Fd 0) [x41; x42; x0a] 262144 (Some (PathError "write" "app.log" ErrNoSpace)))
    (sinkOf plainConfig).

(** A record of 101 bytes, one more than the budget of [sizeConfig]. *)
Definition record101 : record := recordAt 7 t0 (replicate 101 x2e).

(** A configuration that names the standard output in capitals and asks
    for both kinds of rotation. *)
Definition shoutConfig : FileConfig := mkFileConfig "StdOut" 0 100 CycleDaily 0 0 0 0 0.


(** The queue holds no more records than its capacity. *)
Definition queueBounded (l : fileLogger) : Prop :=
  match discard l with
  | Some ch => Z.of_nat (length (queue ch)) <= capacity ch
  | None => True
  end.

(** The sink with its calendar snapshot taken at [t]. *)
Definition snapshotAt (t : Time) (l : fileLogger) : fileLogger :=
  mkFileLogger (c l) (level l) (recs l) (file l) (writer l) (discard l) (rotate l)
    (t_month t) (t_weekday t) (t_day t) (t_hour t)
    (rotateRemain l) (rotateSuffix l) (Write l).

(** The daily sink of [world3], opened the day before [t1], and [world3]
    with the clock at [t1]. *)
Definition dailySink : fileLogger :=
  set_writer (mkWriter (Fd 0) [] 262144 None) (sinkOf dailyConfig).

Definition nextDayWorld : World :=
  mkWorld (dir world3) (inodes world3) (fds world3) (names world3) 2 1 t1 [] [] [] ∅ false.

(** The day after [t1], 00:00:03. *)
Definition t2 : Time := mkTime 2024 3 17 0 0 3 0.

(** ** Level and cycle names *)


(** [strings.ToLower].  A string of ASCII bytes is lowered letter by
    letter, which is [ToLower].  A string with a byte outside ASCII goes
    through [strings.Map(unicode.ToLower, s)], which decodes runes and
    looks them up in the Unicode tables of the Go release in use; those
    tables are not the package's, and that path is the parameter
    [mapLower]. *)
Fixpoint isASCII (s : string) : bool :=
  match s with
  | EmptyString => true
  | String a s' => (nat_of_ascii a <? 128)%nat && isASCII s'
  end.

Section Names.

Variable mapLower : string -> string.

Definition strings_ToLower (s : string) : string :=
  if isASCII s then ToLower s else mapLower s.



End Names.

(** ** Stack frames as the trace shows them *)

(** Whether a frame's file lies in the runtime's sources. *)
Definition runtimeFrame (f : string * Z) : bool :=
  match String.index 0 "/src/runtime/" f.1 with
  | Some _ => true
  | None => false
  end.

(** One frame of the trace: [file:line|]. *)
Definition frameText (f : string * Z) : list byte :=
  bytes_of f.1 ++ [colon] ++ bytes_of (pretty f.2) ++ [stackLineSeparator].

(** The frames a trace shows: those outside the runtime, without the first
    [skip] of them. *)
Definition shownFrames (frames : list (string * Z)) (skip : Z) : list (string * Z) :=
  drop (Z.to_nat skip) (List.filter (fun f => negb (runtimeFrame f)) frames).

(** A call stack as [runtime.Caller(1)], [runtime.Caller(2)], ... report it. *)
Definition someStack : list (string * Z) :=
  [("/app/log/logger.go", 185); ("/go/src/runtime/proc.go", 250);
   ("/app/log/file.go", 186); ("/app/main.go", 17);
   ("/go/src/runtime/asm.s", 9); ("/app/boot.go", 3)]%string.

(** The entry a logging call renders: stamp, level, location, message and
    the line terminator. *)
Definition entryText (lv : Z) (k : Call) (t : Time) : list byte :=
  let '(file, line) := default ("???"%string, 1) (caller k) in
  stamp t ++ bytes_of (levelTag lv) ++ [space] ++
  bytes_of file ++ [colon] ++ bytes_of (pretty line) ++ [space; minus; space] ++
  msg k ++ [newline].


(** The year after 9999. *)
Definition t10000 : Time := mkTime 10000 1 1 0 0 0 6.

(** ** The package's logger

    The package keeps one logger in a variable; [None] is nil. *)

(** The package's [init]: the result of [NewFileLogger] on the standard
    output, whose error is not looked at. *)
Definition init_logger (w : World) : option fileLogger * World :=
  match NewFileLogger (Some (mkFileConfig STDOUT 0 0 0 0 0 0 0 0)) w with
  | (Ok l, w') => (Some l, w')
  | (_, w') => (None, w')
  end.

(** [InitLogger]: flush the logger in place, if there is one, then put the
    new one in its place. *)
Definition InitLogger (lgr : option fileLogger) (logger : option fileLogger) (w : World)
    : option fileLogger * World :=
  match logger with
  | Some old => (lgr, (Flush old w).2)
  | None => (lgr, w)
  end.

(** [world2] with the disk full. *)
Definition fullDiskWorld : World :=
  mkWorld (dir world2) (inodes world2) (fds world2) (names world2) 1 1 t0 [] [] [] ∅ true.

(** A failure reported from [main.go:42] with [someStack] above it. *)
Definition stackCall : Call :=
  mkCall None (Some ("main.go"%string, 42)) (bytes_of "boom") someStack.

(** [rotatingSink] with a disk error pending in its writer. *)
Definition brokenRotatingSink : fileLogger :=
  set_writer
    (mkWriter (Fd 0) [x41; x42; x0a] 262144 (Some (PathError "write" "app.log" ErrNoSpace)))
    (sinkOf sizeConfig).

(** * Properties *)

(** ** Machine integers and digits *)

Lemma wrap64_id (x : Z) : inInt64 x -> wrap64 x = x.
Proof.
  unfold inInt64, wrap64. intros H.
  rewrite Z.mod_small; lia.
Qed.

Lemma wrap64_le (x : Z) : 0 <= x -> wrap64 x <= x.
Proof.
  unfold wrap64. intros H.
  pose proof (Z.mod_le (x + 2 ^ 63) (2 ^ 64) ltac:(lia) ltac:(lia)). lia.
Qed.

Lemma wrap64_range (x : Z) : inInt64 (wrap64 x).
Proof.
  unfold inInt64, wrap64.
  pose proof (Z.mod_pos_bound (x + 2 ^ 63) (2 ^ 64) ltac:(lia)). lia.
Qed.

(** ** What the system calls leave alone

    The rename log only grows in [os_Rename]; the clock is never written. *)

Ltac destruct_match :=
  match goal with
  | |- context [match ?x with _ => _ end] => destruct x eqn:?
  | |- context [if ?x then _ else _] => destruct x eqn:?
  end.

Lemma os_Write_renames f bs w : renames (os_Write f bs w).2 = renames w.
Proof. unfold os_Write. repeat destruct_match; reflexivity. Qed.

Lemma bufio_Flush_renames b w : renames (bufio_Flush b w).2 = renames w.
Proof.
  unfold bufio_Flush. destruct (werr b); [reflexivity|].
  destruct (Buffered b =? 0); [reflexivity|].
  pose proof (os_Write_renames (wr b) (wbuf b) w) as H.
  destruct (os_Write (wr b) (wbuf b) w) as [[e|] w']; exact H.
Qed.

Lemma bufio_loop_renames fuel : forall b p w,
  renames (bufio_loop fuel b p w).2 = renames w.
Proof.
  induction fuel as [|fuel IH]; intros b p w; simpl; [reflexivity|].
  destruct (_ && _); [|reflexivity].
  destruct (Buffered b =? 0).
  - pose proof (os_Write_renames (wr b) p w) as H.
    destruct (os_Write (wr b) p w) as [[e|] w']; rewrite IH; exact H.
  - match goal with |- context [bufio_Flush ?b1 w] =>
      pose proof (bufio_Flush_renames b1 w) as H;
      destruct (bufio_Flush b1 w) as [[o b2] w'] end.
    rewrite IH. exact H.
Qed.

Lemma bufio_Write_renames b p w : renames (bufio_Write b p w).2 = renames w.
Proof.
  unfold bufio_Write.
  pose proof (bufio_loop_renames 3 b p w) as H.
  destruct (bufio_loop 3 b p w) as [[b' p'] w'].
  destruct (werr b'); exact H.
Qed.

Lemma ToFile_renames path w : renames (ToFile path w).2 = renames w.
Proof.
  unfold ToFile, os_OpenFile. repeat destruct_match; reflexivity.
Qed.

Lemma writeRecord_renames r l w : renames (writeRecord r l w).2 = renames w.
Proof.
  unfold writeRecord.
  pose proof (bufio_Write_renames (writer l) (data (buffer r)) w) as H.
  destruct (bufio_Write (writer l) (data (buffer r)) w) as [[[e|] b] w']; exact H.
Qed.

(** Every rollover is one [os.Rename] of the configured path to the name
    [rotateName] computes. *)
Lemma rotating_renames l w :
  renames (rotating l w).2 = renames w ++ [(File (c l), rotateName l w)].
Proof.
  unfold rotating.
  pose proof (bufio_Flush_renames (writer l) w) as H.
  destruct (bufio_Flush (writer l) w) as [[o b] w1]. simpl in H.
  match goal with |- context [ToFile ?p ?w2] =>
    pose proof (ToFile_renames p w2) as H2; destruct (ToFile p w2) as [[f|e] w3] end;
  simpl in *; rewrite H2; destruct (file l); simpl; rewrite H; reflexivity.
Qed.

Lemma rotating_recs l w : recs (rotating l w).1 = recs l.
Proof.
  unfold rotating.
  destruct (bufio_Flush (writer l) w) as [[o b] w1].
  destruct (ToFile _ _) as [[f|e] w3]; reflexivity.
Qed.

Lemma rotating_discard l w : discard (rotating l w).1 = discard l.
Proof.
  unfold rotating.
  destruct (bufio_Flush (writer l) w) as [[o b] w1].
  destruct (ToFile _ _) as [[f|e] w3]; reflexivity.
Qed.

Lemma rotating_config l w : c (rotating l w).1 = c l.
Proof.
  unfold rotating.
  destruct (bufio_Flush (writer l) w) as [[o b] w1].
  destruct (ToFile _ _) as [[f|e] w3]; reflexivity.
Qed.

(** ** The rotation decision *)

Lemma WriteDirect_unfold r l w :
  WriteDirect r l w = writeRecord r (beforeWrite r l w).1 (beforeWrite r l w).2.
Proof.
  unfold WriteDirect, beforeWrite.
  repeat destruct_match; try reflexivity;
    match goal with |- context [rotating ?a ?b] => destruct (rotating a b); reflexivity end.
Qed.

Lemma beforeWrite_renames r l w :
  renames (beforeWrite r l w).2 =
  renames w ++ (if rotationDue l r then [(File (c l), rotateName l w)] else []).
Proof.
  unfold beforeWrite, rotationDue, sizeDue.
  destruct (rotate l); simpl; [|by rewrite app_nil_r].
  destruct ((CycleOff <? RotateCycle (c l)) && cycleDue l r); simpl.
  - apply rotating_renames.
  - destruct (0 <? RotateBytes (c l)); simpl; [|by rewrite app_nil_r].
    destruct (wrap64 (rotateRemain l - len (buffer r)) <? 0); simpl.
    + rewrite rotating_renames. reflexivity.
    + by rewrite app_nil_r.
Qed.

Lemma beforeWrite_recs r l w : recs (beforeWrite r l w).1 = recs l.
Proof.
  unfold beforeWrite. repeat destruct_match; try reflexivity;
    rewrite rotating_recs; reflexivity.
Qed.

Lemma beforeWrite_discard r l w : discard (beforeWrite r l w).1 = discard l.
Proof.
  unfold beforeWrite. repeat destruct_match; try reflexivity;
    rewrite rotating_discard; reflexivity.
Qed.

Lemma WriteDirect_renames r l w :
  renames (WriteDirect r l w).2 =
  renames w ++ (if rotationDue l r then [(File (c l), rotateName l w)] else []).
Proof.
  rewrite WriteDirect_unfold, writeRecord_renames. apply beforeWrite_renames.
Qed.

Example opened_sizeConfig : opened sizeConfig world0 = Some (sinkOf sizeConfig, world1).
Proof. reflexivity. Qed.

Example opened_dailyConfig : opened dailyConfig world0 = Some (sinkOf dailyConfig, world1).
Proof. reflexivity. Qed.

Example opened_smallBufConfig :
  opened smallBufConfig world0 = Some (sinkOf smallBufConfig, world1).
Proof. reflexivity. Qed.

Example opened_discardConfig :
  opened discardConfig world0 = Some (sinkOf discardConfig, world1).
Proof. reflexivity. Qed.

(** ** Calendar rotation *)

Lemma neq_orb (a b : Z) (P : Prop) (x : bool) :
  (x = true <-> P) -> (bool_decide (a ≠ b) || x = true <-> a ≠ b \/ P).
Proof.
  intros H. rewrite orb_true_iff, bool_decide_eq_true. tauto.
Qed.

(** The [switch] in [WriteDirect] selects exactly the comparisons of the
    specification's table. *)
Lemma cycleDue_table l r :
  cycleDue l r = true <-> calendarChanged (RotateCycle (c l)) l r.
Proof.
  unfold cycleDue, calendarChanged, CycleMonthly, CycleWeekly, CycleDaily, CycleHourly.
  destruct (RotateCycle (c l) =? 4) eqn:E4; [apply Z.eqb_eq in E4|apply Z.eqb_neq in E4].
  { rewrite bool_decide_eq_true. intuition lia. }
  destruct (RotateCycle (c l) =? 3) eqn:E3; [apply Z.eqb_eq in E3|apply Z.eqb_neq in E3].
  { rewrite orb_true_iff, !bool_decide_eq_true. intuition lia. }
  destruct (RotateCycle (c l) =? 2) eqn:E2; [apply Z.eqb_eq in E2|apply Z.eqb_neq in E2].
  { rewrite !orb_true_iff, !bool_decide_eq_true. intuition lia. }
  destruct (RotateCycle (c l) =? 1) eqn:E1; [apply Z.eqb_eq in E1|apply Z.eqb_neq in E1].
  { rewrite !orb_true_iff, !bool_decide_eq_true. intuition lia. }
  split; [discriminate|]. intuition lia.
Qed.

(** C3.  On a sink with rotation on and a calendar cycle configured, a
    direct write performs a calendar rollover exactly when the record's
    stored fields differ from the sink's snapshot in the way the cycle's row
    of the table says (monthly: month; weekly: month or weekday; daily:
    month, weekday or day; hourly: month, weekday, day or hour).  In that
    case the write is the rollover followed by the append, with exactly one
    rename logged; otherwise no calendar rollover happens and the only
    rollover the write can still make is the one the size check asks for. *)
Theorem calendar_rotation_exact (r : record) (l : fileLogger) (w : World) :
  rotate l = true ->
  CycleOff < RotateCycle (c l) ->
  (cycleDue l r = true <-> calendarChanged (RotateCycle (c l)) l r) /\
  (cycleDue l r = true ->
     WriteDirect r l w = writeRecord r (rotating l w).1 (rotating l w).2 /\
     renames (WriteDirect r l w).2 = renames w ++ [(File (c l), rotateName l w)]) /\
  (cycleDue l r = false ->
     WriteDirect r l w =
       writeRecord r (beforeWrite r l w).1 (beforeWrite r l w).2 /\
     renames (WriteDirect r l w).2 =
       renames w ++ (if sizeDue l r then [(File (c l), rotateName l w)] else [])).
Proof.
  intros Hrot Hcy. apply Z.ltb_lt in Hcy.
  split; [apply cycleDue_table|]. split; intros Hdue.
  - split.
    + rewrite WriteDirect_unfold. unfold beforeWrite.
      rewrite Hrot, Hcy, Hdue. reflexivity.
    + rewrite WriteDirect_renames. unfold rotationDue.
      rewrite Hrot, Hcy, Hdue. reflexivity.
  - split; [apply WriteDirect_unfold|].
    rewrite WriteDirect_renames. unfold rotationDue.
    rewrite Hrot, Hcy, Hdue. reflexivity.
Qed.

(** A daily sink opened on 2024-03-15 meets a record stamped the next day:
    one rollover; a record stamped the same day: none. *)
Lemma calendar_rotation_exact_witness :
  renames (WriteDirect (recordAt 1 t1 [x61]) (sinkOf dailyConfig) world1).2 =
    [("app.log", "app.log..101542")]%string /\
  renames (WriteDirect (recordAt 1 t0 [x61]) (sinkOf dailyConfig) world1).2 = [].
Proof.
  split.
  - pose proof (calendar_rotation_exact (recordAt 1 t1 [x61]) (sinkOf dailyConfig) world1
                  eq_refl eq_refl) as (_ & H & _).
    destruct (H eq_refl) as [_ ->]. reflexivity.
  - pose proof (calendar_rotation_exact (recordAt 1 t0 [x61]) (sinkOf dailyConfig) world1
                  eq_refl eq_refl) as (_ & _ & H).
    destruct (H eq_refl) as [_ ->]. reflexivity.
Defined.

(** ** Direct writes: errors and the release of the record *)

(** C7.  A direct write never hands an error to its caller (its result is
    the new sink and world, nothing else).  Whatever the rotation policy
    did, when the append to the buffered writer fails the failure is printed
    on the diagnostic stream and nothing else is done about it, and in every
    case (success, failed append, rollover) the record goes through
    [Put]. *)
Theorem WriteDirect_reports_and_releases (r : record) (l : fileLogger) (w : World) :
  let st := beforeWrite r l w in
  let res := bufio_Write (writer st.1) (data (buffer r)) st.2 in
  recs (WriteDirect r l w).1 = Put r (recs l) /\
  (forall e, res.1.1 = Some e ->
     (WriteDirect r l w).2 = eprint ("logger write error: " +:+ errorText e) res.2) /\
  (res.1.1 = None -> (WriteDirect r l w).2 = res.2).
Proof.
  intros st res. subst res.
  rewrite WriteDirect_unfold. fold st.
  pose proof (beforeWrite_recs r l w) as Hrecs. fold st in Hrecs.
  unfold writeRecord.
  destruct (bufio_Write (writer st.1) (data (buffer r)) st.2) as [[[e|] b] w'];
    simpl; rewrite Hrecs; repeat split; intros; congruence.
Qed.

(** Two of the cases of C7 on concrete runs: an append that fails on
    a full disk, and a write that rolls over first. *)
Example WriteDirect_failed_append :
  let w := mkWorld (dir world1) (inodes world1) (fds world1) (names world1)
             1 1 t0 [] [] [] ∅ true in
  let r := recordAt 1 t0 (replicate 30 x61) in
  let '(l', w') := WriteDirect r (sinkOf smallBufConfig) w in
  stderr w' = bytes_of "logger write error: write app.log: no space left on device" /\
  pool (recs l') = [r].
Proof. vm_compute. split; reflexivity. Qed.

Example WriteDirect_after_rollover :
  let '(l', w') := WriteDirect (recordAt 1 t1 [x61]) (sinkOf dailyConfig) world1 in
  stderr w' = [] /\ pool (recs l') = [recordAt 1 t1 [x61]] /\
  length (renames w') = 1%nat.
Proof. vm_compute. repeat split; reflexivity. Qed.

(** ** The header *)

Lemma digit_ok (d : Z) : 0 <= d < 10 -> digit d = Some (asciiDigit d).
Proof.
  intros H.
  assert (d = 0 \/ d = 1 \/ d = 2 \/ d = 3 \/ d = 4 \/ d = 5 \/ d = 6 \/ d = 7 \/
          d = 8 \/ d = 9) as Hd by lia.
  repeat (destruct Hd as [-> | Hd]; [reflexivity|]). subst d. reflexivity.
Qed.

Lemma append_data grow s bs : data (append grow s bs) = data s ++ bs.
Proof. unfold append. destruct (_ <=? _); reflexivity. Qed.

Ltac div_lia := Z.to_euclidean_division_equations; lia.

Ltac explode26 h H :=
  do 26 (destruct h as [|? h]; [discriminate H|]);
  destruct h; [clear H|discriminate H].

Lemma stores_length ws : forall h, length (stores h ws) = length h.
Proof.
  induction ws as [|[i b] ws IH]; intros h; simpl; [reflexivity|].
  rewrite IH. apply length_insert.
Qed.

(** The stores of [Header] into an array of 26 bytes, read back through the
    slice the selected case appends. *)
Lemma stores_render (hdr : list byte) (lv : Z)
    (y3 y2 y1 y0 m1 m0 d1 d0 h1 h0 i1 i0 s1 s0 : byte) :
  length hdr = headerLength ->
  take (levelStores lv).2
    (stores
       (stores hdr
          [(0%nat, y3); (1%nat, y2); (2%nat, y1); (3%nat, y0);
           (4%nat, datetimeSeparator); (5%nat, m1); (6%nat, m0);
           (7%nat, datetimeSeparator); (8%nat, d1); (9%nat, d0); (10%nat, space);
           (11%nat, h1); (12%nat, h0); (13%nat, colon); (14%nat, i1); (15%nat, i0);
           (16%nat, colon); (17%nat, s1); (18%nat, s0); (19%nat, space)])
       (levelStores lv).1) =
  [y3; y2; y1; y0; "-"%byte; m1; m0; "-"%byte; d1; d0; " "%byte;
   h1; h0; ":"%byte; i1; i0; ":"%byte; s1; s0; " "%byte]
  ++ bytes_of (levelTag lv) ++ [space].
Proof.
  intros H. unfold headerLength in H. explode26 hdr H.
  unfold levelStores, levelTag.
  repeat destruct_match; reflexivity.
Qed.

(** On a valid clock reading [Header] does not panic; it appends the stamp,
    the level's name and one space, stores month, weekday, day and hour, and
    leaves the record's address and [minute] as they were. *)
Lemma Header_renders grow (t : Time) (lv : Z) (r : record) :
  validTime t ->
  length (header r) = headerLength ->
  exists r',
    Header grow t lv r = Some r' /\
    data (buffer r') = data (buffer r) ++ stamp t ++ bytes_of (levelTag lv) ++ [space] /\
    length (header r') = headerLength /\
    addr r' = addr r /\
    month r' = t_month t /\ week r' = t_weekday t /\
    day r' = t_day t /\ hour r' = t_hour t /\
    minute r' = minute r.
Proof.
  intros (Hy & Hm & Hd & Hh & Hi & Hs & _) Hlen.
  unfold Header. cbv zeta.
  rewrite !Z.rem_mod_nonneg by (repeat (apply Z.rem_nonneg; [lia|]); lia).
  rewrite !Z.quot_div_nonneg by div_lia.
  rewrite !digit_ok by div_lia. cbn [mbind option_bind].
  pose proof (stores_render (header r) lv) as Hst.
  destruct (levelStores lv) as [ws n]. cbn [fst snd] in Hst.
  eexists. split; [reflexivity|].
  cbn [set_buffer set_header buffer header addr month week day hour minute].
  rewrite append_data, Hst by exact Hlen.
  repeat split; try reflexivity.
  - do 2 f_equal. unfold stamp, dec4, dec2. cbn [app].
    repeat (apply (f_equal2 cons);
            [first [reflexivity | apply (f_equal asciiDigit); div_lia]|]).
    reflexivity.
  - rewrite !stores_length. exact Hlen.
Qed.

(** ** The pool *)

Lemma poolNew_spec rs :
  0 <= recordBytes rs ->
  poolNew rs =
    Some (mkRecord (nextAddr rs) (make0 (recordBytes rs))
            (replicate headerLength x00) 0 0 0 0 0,
          mkRecords (pool rs) (S (nextAddr rs)) (recordBytes rs) (threshold rs)).
Proof.
  intros H. unfold poolNew.
  destruct (recordBytes rs <? 0) eqn:E; [apply Z.ltb_lt in E; lia|reflexivity].
Qed.

(** [Get] answers with an empty buffer: either a held record, removed from
    the pool with its capacity intact, or a new one at the next address. *)
Lemma Get_spec pick rs :
  0 <= recordBytes rs ->
  exists r rs',
    Get pick rs = Some (r, rs') /\
    data (buffer r) = [] /\
    recordBytes rs' = recordBytes rs /\ threshold rs' = threshold rs /\
    ((exists i r0, pick = Some i /\ pool rs !! i = Some r0 /\
        r = set_buffer (reslice0 (buffer r0)) r0 /\
        pool rs' = delete i (pool rs) /\ nextAddr rs' = nextAddr rs) \/
     (r = mkRecord (nextAddr rs) (make0 (recordBytes rs))
            (replicate headerLength x00) 0 0 0 0 0 /\
      pool rs' = pool rs /\ nextAddr rs' = S (nextAddr rs))).
Proof.
  intros H. unfold Get, poolGet.
  destruct pick as [i|]; [destruct (pool rs !! i) as [r0|] eqn:E|];
    rewrite ?(poolNew_spec rs H); cbn [mbind option_bind];
    eexists _, _; (split; [reflexivity|]); cbn;
    repeat split; eauto 10.
Qed.

(** Once an oversized record has been refused, no run of the pool obtains
    it: the pool does not hold it, nothing smaller carries its address back
    in, and new records get new addresses. *)
Lemma runPool_never_returns (a : nat) ops : forall rs,
  (a < nextAddr rs)%nat ->
  (forall x, x ∈ pool rs -> addr x ≠ a) ->
  (forall r', OpPut r' ∈ ops -> addr r' = a -> threshold rs <= cap (buffer r')) ->
  forall x, x ∈ (runPool ops rs).1 -> addr x ≠ a.
Proof.
  induction ops as [|op ops IH]; intros rs Hlt Hpool Hputs x Hx; simpl in Hx.
  { by apply elem_of_nil in Hx. }
  assert (Hputs' : forall r', OpPut r' ∈ ops -> addr r' = a ->
                              threshold rs <= cap (buffer r')).
  { intros r' Hin. apply Hputs. by apply list_elem_of_further. }
  destruct op as [pick|r'|i].
  - unfold Get in Hx.
    destruct (poolGet pick rs) as [[r0 rs']|] eqn:E; cbn [mbind option_bind] in Hx;
      [|by eapply IH].
    assert (Hr0 : addr r0 ≠ a /\ (a < nextAddr rs')%nat /\
                  (forall y, y ∈ pool rs' -> addr y ≠ a) /\
                  threshold rs' = threshold rs).
    { unfold poolGet, poolNew in E.
      destruct pick as [i|]; [destruct (pool rs !! i) as [r1|] eqn:Ei|].
      - inversion E; subst; cbn. split; [|split; [exact Hlt|split; [|reflexivity]]].
        + apply Hpool. eapply list_elem_of_lookup_2; eauto.
        + intros y Hy. apply Hpool. by eapply list_elem_of_delete_inv.
      - destruct (recordBytes rs <? 0); [discriminate|].
        inversion E; subst; cbn. split; [lia|split; [lia|split; [exact Hpool|reflexivity]]].
      - destruct (recordBytes rs <? 0); [discriminate|].
        inversion E; subst; cbn. split; [lia|split; [lia|split; [exact Hpool|reflexivity]]]. }
    destruct Hr0 as (Hne & Hlt' & Hpool' & Hth).
    destruct (runPool ops rs') as [got rs''] eqn:Erun. simpl in Hx.
    apply elem_of_cons in Hx as [->|Hx]; [exact Hne|].
    apply (IH rs' Hlt' Hpool'); [rewrite Hth; exact Hputs'|].
    rewrite Erun. exact Hx.
  - apply (IH (Put r' rs)); [| | |exact Hx].
    + unfold Put, poolPut. destruct (_ <? _); exact Hlt.
    + unfold Put, poolPut. destruct (cap (buffer r') <? threshold rs) eqn:E; cbn;
        [|exact Hpool].
      intros y Hy. apply elem_of_cons in Hy as [->|Hy]; [|by apply Hpool].
      intros Ha. apply Z.ltb_lt in E.
      specialize (Hputs r' (list_elem_of_here _ _) Ha). lia.
    + assert (threshold (Put r' rs) = threshold rs) as ->
        by (unfold Put, poolPut; destruct (_ <? _); reflexivity).
      exact Hputs'.
  - apply (IH (evict i rs)); [exact Hlt| |exact Hputs'|exact Hx].
    intros y Hy. apply Hpool. cbn in Hy. by eapply list_elem_of_delete_inv.
Qed.

(** C8.  For a pool made by [createRecords b f] with [b] and [f] not
    negative: [Get] always answers, with a record whose buffer has length
    zero and, when the record is a reused one, the capacity it was held
    with; [Put] keeps the record exactly when its capacity is strictly below
    the pool's threshold, which is [b * f] (and can only be smaller if that
    product leaves the 64-bit range); and a record whose capacity is [b * f]
    or more is refused by [Put] and is not obtained by any [Get] of any
    later run of the pool, as long as it is not handed to [Put] again with a
    smaller capacity. *)
Theorem pool_contract (b f : Z) (rs : records) :
  0 <= b -> 0 <= f ->
  recordBytes rs = b -> threshold rs = threshold (createRecords b f) ->
  (forall pick, exists r rs',
     Get pick rs = Some (r, rs') /\ len (buffer r) = 0 /\
     (forall i r0, pick = Some i -> pool rs !! i = Some r0 ->
        addr r = addr r0 /\ cap (buffer r) = cap (buffer r0))) /\
  (threshold rs <= b * f /\ (inInt64 (b * f) -> threshold rs = b * f) /\
   forall r, pool (Put r rs) =
             if cap (buffer r) <? threshold rs then r :: pool rs else pool rs) /\
  (forall r ops,
     b * f <= cap (buffer r) ->
     (addr r < nextAddr rs)%nat ->
     (forall x, x ∈ pool rs -> addr x ≠ addr r) ->
     (forall r', OpPut r' ∈ ops -> addr r' = addr r -> b * f <= cap (buffer r')) ->
     forall x, x ∈ (runPool ops (Put r rs)).1 -> addr x ≠ addr r).
Proof.
  intros Hb Hf Hrb Hth. cbn [createRecords threshold] in Hth.
  assert (Hle : threshold rs <= b * f).
  { rewrite Hth. apply wrap64_le. nia. }
  split; [|split].
  - intros pick.
    destruct (Get_spec pick rs ltac:(lia)) as (r & rs' & HG & Hd & _ & _ & Hcase).
    exists r, rs'. split; [exact HG|]. split; [unfold len; by rewrite Hd|].
    intros i r0 -> Hi. unfold Get, poolGet in HG. rewrite Hi in HG.
    cbn in HG. inversion HG; subst. split; reflexivity.
  - split; [exact Hle|]. split.
    + intros Hin. rewrite Hth. by apply wrap64_id.
    + intros r. unfold Put. destruct (_ <? _); reflexivity.
  - intros r ops Hcap Hlt Hpool Hputs.
    assert (Put r rs = rs) as ->.
    { unfold Put.
      destruct (cap (buffer r) <? threshold rs) eqn:E;
        [apply Z.ltb_lt in E; lia|reflexivity]. }
    apply runPool_never_returns; [exact Hlt|exact Hpool|].
    intros r' Hin Ha. specialize (Hputs r' Hin Ha). lia.
Qed.

Example createRecords_first_Get :
  Get None (createRecords 2048 10) =
    Some (mkRecord 0 (make0 2048) (replicate headerLength x00) 0 0 0 0 0,
          poolAfterFirstGet).
Proof. reflexivity. Qed.

Example poolRun_obtains :
  map addr (runPool poolRun (Put oversized poolAfterFirstGet)).1 = [1; 1; 2; 3]%nat.
Proof. reflexivity. Qed.

Lemma pool_contract_witness :
  len (buffer oversized) = 0 /\
  forall x, x ∈ (runPool poolRun (Put oversized poolAfterFirstGet)).1 ->
            addr x ≠ addr oversized.
Proof.
  split; [reflexivity|].
  refine (proj2 (proj2 (pool_contract 2048 10 poolAfterFirstGet _ _ _ _))
            oversized poolRun _ _ _ _).
  - lia.
  - lia.
  - reflexivity.
  - reflexivity.
  - vm_compute. discriminate.
  - simpl. lia.
  - intros x Hx. by apply elem_of_nil in Hx.
  - intros r' Hin Ha. unfold poolRun in Hin.
    repeat (apply elem_of_cons in Hin as [Hin|Hin]; [try discriminate Hin|]).
    + inversion Hin; subst. discriminate Ha.
    + inversion Hin; subst. vm_compute. discriminate.
    + by apply elem_of_nil in Hin.
Defined.

(** ** Formatting a record *)

Lemma Location_data grow caller r :
  exists loc, data (buffer (Location grow caller r)) = data (buffer r) ++ loc.
Proof.
  unfold Location. destruct (default _ caller) as [file line].
  cbn. rewrite !append_data, <- !app_assoc. eauto.
Qed.

Lemma Printf_data grow msg r :
  data (buffer (Printf grow msg r)) = data (buffer r) ++ msg ++ [newline].
Proof. unfold Printf. cbn. by rewrite !append_data, <- app_assoc. Qed.

Lemma stamp_length t : length (stamp t) = 20%nat.
Proof. reflexivity. Qed.

(** C4, as the code has it.  A record formatted at one of the four levels
    the logging methods use (there is no FATAL level) is, byte for byte,
    the twenty-byte stamp [YYYY-MM-DD HH:MM:SS ], the level's name without
    padding, one space, and then [file:line - message] with the line
    terminator.  The header is therefore the first 26 bytes for DEBUG and
    ERROR and the first 25 for INFO and WARN, and what follows it starts
    one column earlier for INFO and WARN than for DEBUG and ERROR.  The
    name is never that of the off level, and a sink whose minimum level is
    off emits nothing through any of its methods. *)
Theorem header_rendering grow (lv : Z) (k : Call) (l : fileLogger) (w : World) :
  validTime (now w) ->
  0 <= recordBytes (recs l) ->
  Forall (fun r => length (header r) = headerLength) (pool (recs l)) ->
  emitted lv ->
  (exists r l',
     fmtRecord grow lv k l w = Some (r, l') /\
     data (buffer r) =
       stamp (now w) ++ bytes_of (levelTag lv) ++ [space] ++ afterHeader k /\
     let n := if (lv =? LevelInfo) || (lv =? LevelWarn) then 25%nat else 26%nat in
     take n (data (buffer r)) = stamp (now w) ++ bytes_of (levelTag lv) ++ [space] /\
     drop n (data (buffer r)) = afterHeader k /\
     length (data (buffer r)) = (n + length (afterHeader k))%nat) /\
  length (stamp (now w)) = 20%nat /\
  (lv = LevelDebug /\ levelTag lv = "DEBUG"%string \/
   lv = LevelInfo /\ levelTag lv = "INFO"%string \/
   lv = LevelWarn /\ levelTag lv = "WARN"%string \/
   lv = LevelError /\ levelTag lv = "ERROR"%string) /\
  (level l = LevelOff ->
     Debug grow k l w = Some (l, w) /\ Info grow k l w = Some (l, w) /\
     Warn grow k l w = Some (l, w) /\ Error grow k l w = Some (l, w) /\
     ErrorStack grow k l w = Some (l, w)).
Proof.
  intros Ht Hrb Hpool Hlv. split; [|split; [|split]].
  - destruct (Get_spec (pick k) (recs l) Hrb) as (r0 & rs' & HG & Hd & _ & _ & Hcase).
    assert (Hh : length (header r0) = headerLength).
    { destruct Hcase as [(i & r1 & _ & Hl & Hr & _)|(Hr & _)]; subst r0;
        [|reflexivity].
      cbn. rewrite Forall_forall in Hpool. apply Hpool.
      eapply list_elem_of_lookup_2; eauto. }
    destruct (Header_renders grow (now w) lv r0 Ht Hh) as (r1 & HH & Hdata & _).
    unfold fmtRecord. rewrite HG. cbn [mbind option_bind]. rewrite HH.
    cbn [mbind option_bind]. eexists _, _. split; [reflexivity|].
    assert (Hall : data (buffer (Printf grow (msg k) (Location grow (caller k) r1))) =
              (stamp (now w) ++ bytes_of (levelTag lv) ++ [space]) ++ afterHeader k).
    { rewrite Printf_data. unfold Location, afterHeader.
      destruct (default ("???"%string, 1) (caller k)) as [file line].
      cbn [set_buffer buffer]. rewrite !append_data, Hdata, Hd. cbn [app].
      by rewrite <- !app_assoc. }
    assert (Hn : length (stamp (now w) ++ bytes_of (levelTag lv) ++ [space]) =
              if (lv =? LevelInfo) || (lv =? LevelWarn) then 25%nat else 26%nat).
    { destruct Hlv as [-> | [-> | [-> | -> ]]]; reflexivity. }
    cbv zeta. rewrite Hall. split; [by rewrite <- !app_assoc|].
    split; [by apply take_app_length'|].
    split; [by apply drop_app_length'|].
    by rewrite length_app, Hn.
  - reflexivity.
  - destruct Hlv as [-> | [-> | [-> | -> ]]]; auto 6.
  - intros Hoff. unfold Debug, Info, Warn, Error, ErrorStack. rewrite Hoff.
    repeat split; reflexivity.
Qed.

(** An INFO call and a DEBUG call from the same place at [t0]: the same
    text after headers of 25 and of 26 bytes. *)
Lemma header_rendering_witness :
  let k := mkCall None (Some ("main.go"%string, 42)) [x68; x69] [] in
  (exists r l',
     fmtRecord growDouble LevelInfo k (sinkOf dailyConfig) world1 = Some (r, l') /\
     data (buffer r) = bytes_of "2024-03-15 10:15:42 INFO main.go:42 - hi" ++ [x0a] /\
     drop 25 (data (buffer r)) = bytes_of "main.go:42 - hi" ++ [x0a]) /\
  (exists r l',
     fmtRecord growDouble LevelDebug k (sinkOf dailyConfig) world1 = Some (r, l') /\
     data (buffer r) = bytes_of "2024-03-15 10:15:42 DEBUG main.go:42 - hi" ++ [x0a] /\
     drop 26 (data (buffer r)) = bytes_of "main.go:42 - hi" ++ [x0a]).
Proof.
  intros k.
  assert (Ht : validTime (now world1)) by (unfold validTime; simpl; lia).
  assert (Hrb : 0 <= recordBytes (recs (sinkOf dailyConfig))) by (simpl; lia).
  assert (Hp : Forall (fun r => length (header r) = headerLength)
                 (pool (recs (sinkOf dailyConfig)))) by constructor.
  split.
  - destruct (header_rendering growDouble LevelInfo k (sinkOf dailyConfig) world1
                Ht Hrb Hp ltac:(right; left; reflexivity))
      as ((r & l' & H1 & H2 & _ & H3 & _) & _).
    exists r, l'. split; [exact H1|]. split; [rewrite H2; reflexivity|exact H3].
  - destruct (header_rendering growDouble LevelDebug k (sinkOf dailyConfig) world1
                Ht Hrb Hp ltac:(left; reflexivity))
      as ((r & l' & H1 & H2 & _ & H3 & _) & _).
    exists r, l'. split; [exact H1|]. split; [rewrite H2; reflexivity|exact H3].
Defined.

(** The claim's fixed width fails: at the same clock reading the INFO
    header is one byte shorter than the DEBUG header, so no single width
    fits the levels and what follows the header starts in different
    columns. *)
Lemma header_width_differs :
  ~ exists n : nat, forall lv, emitted lv ->
      exists r', Header growDouble t0 lv record0 = Some r' /\
                 length (data (buffer r')) = n.
Proof.
  intros [n H].
  destruct (H LevelDebug ltac:(left; reflexivity)) as (r1 & H1 & L1).
  destruct (H LevelInfo ltac:(right; left; reflexivity)) as (r2 & H2 & L2).
  vm_compute in H1, H2.
  inversion H1; subst r1. inversion H2; subst r2.
  vm_compute in L1, L2. congruence.
Qed.

(** ** Calendar fields and the clock *)

Lemma firstFree_set_now fuel t w : forall base n,
  firstFree fuel (set_now t w) base n = firstFree fuel w base n.
Proof.
  induction fuel as [|fuel IH]; intros base n; simpl; [reflexivity|].
  rewrite IH. reflexivity.
Qed.

Lemma rotateName_set_now l t w : rotateName l (set_now t w) = rotateName l w.
Proof.
  unfold rotateName. cbn [set_now dir]. rewrite firstFree_set_now. reflexivity.
Qed.

(** C5, as the code has it.  [Header] stores month, weekday, day of month
    and hour of its one clock reading on the record, and the rest of the
    formatting leaves them there.  The rotation decision of a later direct
    write compares those stored fields with the sink's snapshot: it is the
    decision for a record stamped at format time, and the rollovers the
    write performs, with their names, are the same whatever the clock shows
    when the write happens. *)
Theorem calendar_fields_captured grow (t : Time) (lv : Z) (r : record)
    (l : fileLogger) (w : World) :
  validTime t ->
  length (header r) = headerLength ->
  exists r',
    Header grow t lv r = Some r' /\
    month r' = t_month t /\ week r' = t_weekday t /\
    day r' = t_day t /\ hour r' = t_hour t /\
    cycleDue l r' = cycleDue l (recordAt 0 t []) /\
    (forall t',
       renames (WriteDirect r' l (set_now t' w)).2 = renames (WriteDirect r' l w).2) /\
    forall place text,
      let rf := Printf grow text (Location grow place r') in
      (month rf, week rf, day rf, hour rf) =
        (t_month t, t_weekday t, t_day t, t_hour t) /\
      cycleDue l rf = cycleDue l (recordAt 0 t []) /\
      forall t',
        renames (WriteDirect rf l (set_now t' w)).2 = renames (WriteDirect rf l w).2.
Proof.
  intros Ht Hh.
  destruct (Header_renders grow t lv r Ht Hh)
    as (r' & HH & _ & _ & _ & Hmo & Hwk & Hdy & Hhr & _).
  exists r'. repeat (split; [assumption|]). split; [|split].
  - unfold cycleDue. cbn [recordAt month week day hour].
    rewrite Hmo, Hwk, Hdy, Hhr. reflexivity.
  - intros t'. rewrite !WriteDirect_renames, rotateName_set_now. reflexivity.
  - intros place text rf.
    assert (Hf : (month rf, week rf, day rf, hour rf) =
                 (month r', week r', day r', hour r')).
    { unfold rf, Printf, Location.
      destruct (default ("???"%string, 1) place) as [file line]. reflexivity. }
    rewrite Hmo, Hwk, Hdy, Hhr in Hf. split; [exact Hf|].
    pose proof (f_equal (fun p => p.1.1.1) Hf) as Hfm.
    pose proof (f_equal (fun p => p.1.1.2) Hf) as Hfw.
    pose proof (f_equal (fun p => p.1.2) Hf) as Hfd.
    pose proof (f_equal snd Hf) as Hfh. cbn beta iota delta [fst snd] in Hfm, Hfw, Hfd, Hfh.
    split.
    + unfold cycleDue. rewrite Hfm, Hfw, Hfd, Hfh. reflexivity.
    + intros t'. rewrite !WriteDirect_renames, rotateName_set_now. reflexivity.
Qed.

(** A record stamped at [t1], written to the daily sink of [t0] while the
    clock shows [t0] again or anything else: one rollover either way. *)
Lemma calendar_fields_captured_witness :
  exists r',
    Header growDouble t1 LevelInfo record0 = Some r' /\
    day r' = 16 /\
    renames (WriteDirect r' (sinkOf dailyConfig) (set_now t1 world1)).2 =
    renames (WriteDirect r' (sinkOf dailyConfig) world1).2.
Proof.
  destruct (calendar_fields_captured growDouble t1 LevelInfo record0
              (sinkOf dailyConfig) world1) as (r' & HH & _ & _ & Hd & _ & _ & Hw & _).
  - unfold validTime. simpl. lia.
  - reflexivity.
  - exists r'. split; [exact HH|]. split; [exact Hd|]. apply Hw.
Defined.

(** The claim fails twice.  Its fifth field: [Header] reads the minute for
    the stamp but does not store it, so the record's [minute] keeps its old
    value.  Its conclusion: two records stamped on the 16th and written
    one after the other to the daily sink opened on the 15th cause one
    rollover when they are written while the clock still shows the 16th,
    and two when they have waited until the 17th, because the rollover
    takes the sink's new snapshot from the clock. *)
Lemma capture_claim_fails :
  (exists r', Header growDouble t0 LevelInfo record0 = Some r' /\
              minute r' ≠ t_minute t0) /\
  let rs := [recordAt 1 t1 [x61]; recordAt 2 t1 [x62]] in
  length (renames (writeAll rs dailySink nextDayWorld).2) = 1%nat /\
  length (renames (writeAll rs dailySink (set_now t2 nextDayWorld)).2) = 2%nat.
Proof.
  split.
  - eexists. split; [vm_compute; reflexivity|]. vm_compute. discriminate.
  - split; vm_compute; reflexivity.
Qed.

(** ** The discard path *)




(** ** Construction *)

(** C10.  [NewFileLogger] reads the configuration before it calls
    [mergeDefault]: with a nil pointer it panics, opening nothing and
    returning no sink, although [mergeDefault] on its own turns nil into the
    defaults; every call that does return a sink was given a non-nil
    pointer, and its configuration is [mergeDefault] of that pointer. *)
Theorem NewFileLogger_nil_panics :
  (forall w, exists msg, NewFileLogger None w = (Panic msg, w)) /\
  (forall cfg w l w',
     NewFileLogger cfg w = (Ok l, w') ->
     exists c0, cfg = Some c0 /\ c l = mergeDefault (Some c0)) /\
  mergeDefault None =
    mkFileConfig STDOUT 0 0 0 defaultBufferLength defaultBufferPeriod
                 defaultRecordLength defaultRecordFactor 0.
Proof.
  split; [|split].
  - intros w. eexists. reflexivity.
  - intros [c0|] w l w' H; [|discriminate].
    exists c0. split; [reflexivity|].
    unfold NewFileLogger in H.
    destruct (ToFile (File c0) w) as [[f|e] w1]; [|discriminate].
    destruct (DiscardThreshold (mergeDefault (Some c0)) <=? 0);
      inversion H; subst; reflexivity.
  - reflexivity.
Qed.

(** ** The daemon *)

Lemma writeRecord_discard r l w : discard (writeRecord r l w).1 = discard l.
Proof.
  unfold writeRecord.
  destruct (bufio_Write (writer l) (data (buffer r)) w) as [[[e|] b] w']; reflexivity.
Qed.

Lemma WriteDirect_discard r l w : discard (WriteDirect r l w).1 = discard l.
Proof.
  rewrite WriteDirect_unfold, writeRecord_discard. apply beforeWrite_discard.
Qed.

Lemma Flush_discard l w : discard (Flush l w).1 = discard l.
Proof.
  unfold Flush. destruct (bufio_Flush (writer l) w) as [[o b] w']. reflexivity.
Qed.

Lemma WriteDiscard_isClosed r l w l' w' :
  WriteDiscard r l w = Some (l', w') -> isClosed l' = isClosed l.
Proof.
  unfold WriteDiscard, isClosed. intros H.
  destruct (discard l) as [ch|] eqn:E; [|inversion H; subst; by rewrite E].
  destruct (closed ch) eqn:Ec; [discriminate|].
  destruct (_ <? _); inversion H; subst; cbn; [reflexivity|by rewrite E].
Qed.

(** What one call of the loop consumes is a prefix of the events; when it
    returns, the prefix is not empty. *)
Lemma protectLoop_suffix evs : forall l w ex evs' st,
  protectLoop evs l w = (ex, evs', st) ->
  exists pre, evs = pre ++ evs' /\ (ex ≠ Blocked -> pre ≠ []).
Proof.
  induction evs as [|ev evs IH]; intros l w ex evs' st H; simpl in H.
  { inversion H; subst. exists []. split; [reflexivity|]. intros Hne. by destruct Hne. }
  assert (Hrec : forall l1 w1, protectLoop evs l1 w1 = (ex, evs', st) ->
            exists pre, ev :: evs = pre ++ evs' /\ (ex ≠ Blocked -> pre ≠ [])).
  { intros l1 w1 H1. destruct (IH _ _ _ _ _ H1) as (pre & -> & _).
    exists (ev :: pre). split; [reflexivity|]. intros _. discriminate. }
  destruct ev as [r| | | |v].
  - destruct (WriteDiscard r l w) as [[l1 w1]|]; eauto.
  - destruct (Close l w) as [[l1 w1]|]; eauto.
  - destruct (discard l) as [[[|rc q] k [|]]|]; eauto;
      try (destruct (WriteDirect _ _ _) as [l1 w1]; eauto).
    inversion H; subst. exists [EvRecv]. split; [reflexivity|]. intros _. discriminate.
  - destruct (Flush l w) as [l1 w1]; eauto.
  - inversion H; subst. exists [EvFault v]. split; [reflexivity|]. intros _. discriminate.
Qed.

(** The loop returns [ErrProcessDone] only from a receive on the closed,
    drained queue. *)
Lemma protectLoop_done evs : forall l w evs' l' w',
  protectLoop evs l w = (Returns (Some ErrProcessDone), evs', (l', w')) ->
  exists k, discard l' = Some (mkChan [] k true).
Proof.
  induction evs as [|ev evs IH]; intros l w evs' l' w' H; simpl in H; [discriminate|].
  destruct ev as [r| | | |v].
  - destruct (WriteDiscard r l w) as [[l1 w1]|]; eauto.
  - destruct (Close l w) as [[l1 w1]|]; eauto.
  - destruct (discard l) as [[[|rc q] k [|]]|] eqn:E; eauto;
      try (destruct (WriteDirect _ _ _) as [l1 w1]; eauto).
    inversion H; subst. eauto.
  - destruct (Flush l w) as [l1 w1]; eauto.
  - discriminate.
Qed.

(** Only [Close] closes the queue. *)
Lemma protectLoop_closed_origin evs : forall l w ex evs' l' w',
  protectLoop evs l w = (ex, evs', (l', w')) ->
  isClosed l' = true -> isClosed l = true \/ EvClose ∈ evs.
Proof.
  induction evs as [|ev evs IH]; intros l w ex evs' l' w' H Hc; simpl in H.
  { inversion H; subst. by left. }
  assert (Hrec : forall l1 w1, isClosed l1 = isClosed l ->
            protectLoop evs l1 w1 = (ex, evs', (l', w')) ->
            isClosed l = true \/ EvClose ∈ ev :: evs).
  { intros l1 w1 Heq H1. destruct (IH _ _ _ _ _ _ H1 Hc) as [Hl|Hin].
    - left. by rewrite <- Heq.
    - right. by apply list_elem_of_further. }
  destruct ev as [r| | | |v].
  - destruct (WriteDiscard r l w) as [[l1 w1]|] eqn:E; [|by eapply Hrec].
    eapply Hrec; [|exact H]. by eapply WriteDiscard_isClosed.
  - right. apply list_elem_of_here.
  - destruct (discard l) as [[[|rc q] k [|]]|] eqn:E;
      try (by eapply Hrec; [|exact H]).
    + inversion H; subst. left. exact Hc.
    + destruct (WriteDirect rc _ w) as [l1 w1] eqn:EW.
      eapply Hrec; [|exact H].
      pose proof (WriteDirect_discard rc
        (set_discard (Some (mkChan q k true)) l) w) as Hd.
      rewrite EW in Hd. unfold isClosed. cbn in Hd. by rewrite Hd, E.
    + destruct (WriteDirect rc _ w) as [l1 w1] eqn:EW.
      eapply Hrec; [|exact H].
      pose proof (WriteDirect_discard rc
        (set_discard (Some (mkChan q k false)) l) w) as Hd.
      rewrite EW in Hd. unfold isClosed. cbn in Hd. by rewrite Hd, E.
  - destruct (Flush l w) as [l1 w1] eqn:EF.
    eapply Hrec; [|exact H].
    pose proof (Flush_discard l w) as Hd. rewrite EF in Hd.
    unfold isClosed. cbn in Hd. by rewrite Hd.
  - inversion H; subst. left. exact Hc.
Qed.

Lemma daemon_returned fuel tk : forall evs l w l' w',
  0 < tk ->
  daemon fuel tk evs l w = (Returned, (l', w')) ->
  (exists k, discard l' = Some (mkChan [] k true)) /\
  (isClosed l = true \/ EvClose ∈ evs).
Proof.
  induction fuel as [|fuel IH]; intros evs l w l' w' Htk H; simpl in H; [discriminate|].
  unfold protectDaemon in H.
  destruct (tk <=? 0) eqn:E; [apply Z.leb_le in E; lia|].
  destruct (protectLoop evs l w) as [[[err|] evs1] [l1 w1]] eqn:EP; [|discriminate].
  destruct (protectLoop_suffix _ _ _ _ _ _ EP) as (pre & -> & _).
  destruct (bool_decide (err = Some ErrProcessDone)) eqn:Eb.
  - apply bool_decide_eq_true in Eb. subst err. inversion H; subst.
    destruct (protectLoop_done _ _ _ _ _ _ EP) as [k Hk].
    split; [eauto|].
    eapply protectLoop_closed_origin; [exact EP|]. unfold isClosed. by rewrite Hk.
  - destruct (IH _ _ _ _ _ Htk H) as [Hk [Hc|Hin]]; (split; [exact Hk|]).
    + eapply protectLoop_closed_origin; [exact EP|exact Hc].
    + right. apply elem_of_app. by right.
Qed.

Lemma daemon_enough_fuel fuel tk : forall evs l w,
  0 < tk -> (length evs < fuel)%nat -> (daemon fuel tk evs l w).1 ≠ Restarting.
Proof.
  induction fuel as [|fuel IH]; intros evs l w Htk Hlen; [lia|]. simpl.
  unfold protectDaemon.
  destruct (tk <=? 0) eqn:E; [apply Z.leb_le in E; lia|].
  destruct (protectLoop evs l w) as [[[err|] evs1] [l1 w1]] eqn:EP; [|discriminate].
  destruct (protectLoop_suffix _ _ _ _ _ _ EP) as (pre & -> & Hpre).
  destruct (bool_decide _); [discriminate|].
  apply IH; [exact Htk|].
  rewrite length_app in Hlen. destruct pre; [by destruct Hpre|]. simpl in Hlen. lia.
Qed.

(** With a period that is not positive every call of [protectDaemon] panics
    in [time.NewTicker], is caught, and the daemon calls it again: it never
    gets to look at the queue. *)
Lemma daemon_bad_period fuel tk : forall evs l w,
  tk <= 0 -> (daemon fuel tk evs l w).1 = Restarting.
Proof.
  induction fuel as [|fuel IH]; intros evs l w Htk; [reflexivity|]. simpl.
  unfold protectDaemon.
  destruct (tk <=? 0) eqn:E; [|apply Z.leb_gt in E; lia].
  cbn. apply IH. exact Htk.
Qed.

(** The period the daemon is started with is positive. *)
Lemma mergeDefault_period cfg : 0 < BufferPeriod (mergeDefault cfg).
Proof.
  unfold mergeDefault. cbn.
  destruct (BufferPeriod _ <=? 0) eqn:E; [reflexivity|apply Z.leb_gt in E; lia].
Qed.

(** C9.  With the positive period [NewFileLogger] passes, the daemon returns
    only from a receive on the closed and drained queue, so only after a
    [Close]; such a receive does make it return; a receive of a record and a
    tick keep the loop going; a panic inside an iteration is printed on the
    diagnostic stream, [protectDaemon] returns nil, the daemon prints that
    too and calls [protectDaemon] again on what follows; and a run never
    stops between two calls for lack of anything but events. *)
Theorem daemon_stops_on_close_only (tk : Z) (l : fileLogger) (w : World) :
  0 < tk ->
  (forall fuel evs l' w',
     daemon fuel tk evs l w = (Returned, (l', w')) ->
     (exists k, discard l' = Some (mkChan [] k true)) /\
     (isClosed l = true \/ EvClose ∈ evs)) /\
  (forall fuel evs k,
     discard l = Some (mkChan [] k true) ->
     daemon (S fuel) tk (EvRecv :: evs) l w = (Returned, (l, w))) /\
  (forall fuel evs rc q k cl,
     discard l = Some (mkChan (rc :: q) k cl) ->
     daemon (S fuel) tk (EvRecv :: evs) l w =
       let st := WriteDirect rc (set_discard (Some (mkChan q k cl)) l) w in
       daemon (S fuel) tk evs st.1 st.2) /\
  (forall fuel evs,
     daemon (S fuel) tk (EvTick :: evs) l w =
       daemon (S fuel) tk evs (Flush l w).1 (Flush l w).2) /\
  (forall fuel v evs,
     daemon (S fuel) tk (EvFault v :: evs) l w =
       daemon fuel tk evs l
         (eprint "daemon error: <nil>" (eprint ("daemon panic: " +:+ v) w))) /\
  (forall fuel evs,
     (length evs < fuel)%nat -> (daemon fuel tk evs l w).1 ≠ Restarting).
Proof.
  intros Htk.
  assert (E : (tk <=? 0) = false) by (apply Z.leb_gt; lia).
  split; [|split; [|split; [|split; [|split]]]].
  - intros fuel evs l' w' H. eapply daemon_returned; eauto.
  - intros fuel evs k H.
    cbn [daemon]. unfold protectDaemon. rewrite E. cbn [protectLoop].
    rewrite H. reflexivity.
  - intros fuel evs rc q k cl H.
    cbn [daemon]. unfold protectDaemon. rewrite E. cbn [protectLoop].
    rewrite H. destruct (WriteDirect rc _ w) as [l1 w1]. reflexivity.
  - intros fuel evs.
    cbn [daemon]. unfold protectDaemon. rewrite E. cbn [protectLoop].
    destruct (Flush l w) as [l1 w1]. reflexivity.
  - intros fuel v evs.
    cbn [daemon]. unfold protectDaemon. rewrite E. reflexivity.
  - intros fuel evs Hlen. apply daemon_enough_fuel; assumption.
Qed.

Lemma daemon_stops_on_close_only_witness :
  exists l' w',
    daemon 8 defaultBufferPeriod daemonRun (sinkOf discardConfig) world1 =
      (Returned, (l', w')) /\
    (exists k, discard l' = Some (mkChan [] k true)) /\
    stderr w' = bytes_of "daemon panic: boomdaemon error: <nil>" /\
    readFile w' "app.log" = Some [x68; x69; x0a].
Proof.
  destruct (daemon 8 defaultBufferPeriod daemonRun (sinkOf discardConfig) world1)
    as [s [l' w']] eqn:E.
  pose proof E as E2. vm_compute in E2.
  assert (s = Returned) as -> by (inversion E2; reflexivity).
  exists l', w'. split; [reflexivity|].
  destruct (daemon_stops_on_close_only defaultBufferPeriod (sinkOf discardConfig) world1
              eq_refl) as (H & _).
  destruct (H 8%nat daemonRun l' w' E) as [Hk _].
  split; [exact Hk|].
  inversion E2; subst. split; vm_compute; reflexivity.
Defined.

(** ** The buffered writer's loop *)

(** Three passes reach the exit condition of the loop of
    [bufio.Writer.Write]: an error is pending or the rest fits. *)
Lemma bufio_loop_exit b p w :
  0 < wsize b -> Buffered b <= wsize b ->
  let res := bufio_loop 3 b p w in
  werr res.1.1 ≠ None \/ Z.of_nat (length res.1.2) <= Available res.1.1.
Proof.
  intros Hsz Hbuf.
  assert (Hguard : forall fuel b0 p0 w0,
    (Available b0 <? Z.of_nat (length p0)) && bool_decide (werr b0 = None) = false ->
    let res := bufio_loop (S fuel) b0 p0 w0 in
    werr res.1.1 ≠ None \/ Z.of_nat (length res.1.2) <= Available res.1.1).
  { intros fuel b0 p0 w0 Hg. simpl. rewrite Hg. simpl.
    apply andb_false_iff in Hg as [Hg|Hg].
    - right. apply Z.ltb_ge in Hg. exact Hg.
    - left. apply bool_decide_eq_false in Hg. exact Hg. }
  assert (Hempty : forall fuel b0 p0 w0,
    Buffered b0 = 0 -> 0 < wsize b0 ->
    let res := bufio_loop (S (S fuel)) b0 p0 w0 in
    werr res.1.1 ≠ None \/ Z.of_nat (length res.1.2) <= Available res.1.1).
  { intros fuel b0 p0 w0 Hb0 Hs0.
    destruct ((Available b0 <? Z.of_nat (length p0)) && bool_decide (werr b0 = None))
      eqn:Hg; [|by apply Hguard].
    change (bufio_loop (S (S fuel)) b0 p0 w0) with
      (if (Available b0 <? Z.of_nat (length p0)) && bool_decide (werr b0 = None) then
         if Buffered b0 =? 0 then
           match os_Write (wr b0) p0 w0 with
           | (Some e, w') =>
               bufio_loop (S fuel) (mkWriter (wr b0) (wbuf b0) (wsize b0) (Some e)) p0 w'
           | (None, w') => bufio_loop (S fuel) b0 [] w'
           end
         else
           let n := Z.to_nat (Available b0) in
           let b1 := mkWriter (wr b0) (wbuf b0 ++ take n p0) (wsize b0) (werr b0) in
           let '(_, b2, w') := bufio_Flush b1 w0 in
           bufio_loop (S fuel) b2 (drop n p0) w'
       else (b0, p0, w0)).
    rewrite Hg, Hb0. cbn [Z.eqb].
    destruct (os_Write (wr b0) p0 w0) as [[e|] w']; apply Hguard.
    - cbn. by rewrite andb_false_r.
    - apply andb_false_iff. left. apply Z.ltb_ge.
      unfold Available. rewrite Hb0. simpl. lia. }
  destruct ((Available b <? Z.of_nat (length p)) && bool_decide (werr b = None))
    eqn:Hg; [|by apply Hguard].
  destruct (Buffered b =? 0) eqn:Hb; [apply Z.eqb_eq in Hb; by apply Hempty|].
  assert (Herr : werr b = None).
  { apply andb_true_iff in Hg as [_ Herr]. by apply bool_decide_eq_true in Herr. }
  cbv zeta.
  change (bufio_loop 3 b p w) with
    (if (Available b <? Z.of_nat (length p)) && bool_decide (werr b = None) then
       if Buffered b =? 0 then
         match os_Write (wr b) p w with
         | (Some e, w') =>
             bufio_loop 2 (mkWriter (wr b) (wbuf b) (wsize b) (Some e)) p w'
         | (None, w') => bufio_loop 2 b [] w'
         end
       else
         let n := Z.to_nat (Available b) in
         let b1 := mkWriter (wr b) (wbuf b ++ take n p) (wsize b) (werr b) in
         let '(_, b2, w') := bufio_Flush b1 w in
         bufio_loop 2 b2 (drop n p) w'
     else (b, p, w)).
  rewrite Hg, Hb. cbv zeta.
  unfold bufio_Flush. cbn [werr wr wbuf wsize]. rewrite Herr.
  set (n := Z.to_nat (Available b)).
  destruct (Buffered (mkWriter (wr b) (wbuf b ++ take n p) (wsize b) None) =? 0)
    eqn:Hfull.
  - apply (Hempty 0%nat); [apply Z.eqb_eq in Hfull; exact Hfull|exact Hsz].
  - destruct (os_Write (wr b) (wbuf b ++ take n p) w) as [[e|] w'].
    + apply (Hguard 1%nat). cbn. by rewrite andb_false_r.
    + apply (Hempty 0%nat); [reflexivity|exact Hsz].
Qed.

(** ** Rotated names *)

Lemma append_empty_r (s : string) : s +:+ "" = s.
Proof.
  induction s as [|a s IH]; [reflexivity|].
  change (String a (s +:+ "") = String a s). by rewrite IH.
Qed.

(** The numbered candidates of one base name are pairwise different. *)
Lemma candidate_inj (base : string) : Inj (=) (=) (fun n : nat => base +:+ "." +:+ pretty n).
Proof.
  intros n m H. apply String.app_inj in H. simpl in H.
  inversion H as [H']. by apply pretty_nat_inj in H'.
Qed.

(** What the loop finds is free, and everything it stepped over is taken. *)
Lemma firstFree_spec fuel w base : forall n name,
  firstFree fuel w base n = Some name ->
  exists k : nat,
    (n <= k)%nat /\ name = base +:+ "." +:+ pretty k /\ dir w !! name = None /\
    forall j : nat, (n <= j < k)%nat -> dir w !! (base +:+ "." +:+ pretty j) ≠ None.
Proof.
  induction fuel as [|fuel IH]; intros n name H; simpl in H; [discriminate|].
  unfold os_Stat, os_IsNotExist in H.
  destruct (dir w !! (base +:+ "." +:+ pretty n)) as [ino|] eqn:E; cbn in H.
  - destruct (IH _ _ H) as (k & Hk & Hname & Hfree & Htaken).
    exists k. split; [lia|]. split; [exact Hname|]. split; [exact Hfree|].
    intros j Hj. destruct (decide (j = n)) as [->|Hne]; [by rewrite E|].
    apply Htaken. lia.
  - inversion H; subst. exists n. split; [lia|]. split; [reflexivity|].
    split; [exact E|]. intros j Hj. lia.
Qed.

Lemma firstFree_none fuel w base : forall n,
  firstFree fuel w base n = None ->
  forall j : nat, (n <= j < n + fuel)%nat -> is_Some (dir w !! (base +:+ "." +:+ pretty j)).
Proof.
  induction fuel as [|fuel IH]; intros n H j Hj; [lia|]. simpl in H.
  unfold os_Stat, os_IsNotExist in H.
  destruct (dir w !! (base +:+ "." +:+ pretty n)) as [ino|] eqn:E; cbn in H;
    [|discriminate].
  destruct (decide (j = n)) as [->|Hne]; [by rewrite E|].
  apply (IH _ H). lia.
Qed.

(** A directory cannot hold more candidates than it has entries, so the
    loop of [rotating] ends within the fuel [rotateName] gives it. *)
Lemma firstFree_total w base : is_Some (firstFree (S (size (dir w))) w base 0).
Proof.
  destruct (firstFree (S (size (dir w))) w base 0) as [name|] eqn:E; [eauto|].
  exfalso.
  pose proof (firstFree_none _ _ _ _ E) as Hall.
  set (cand := fun n : nat => base +:+ "." +:+ pretty n) in *.
  set (names := cand <$> seq 0 (S (size (dir w)))).
  assert (Hsub : (list_to_set names : gset string) ⊆ dom (dir w)).
  { intros s Hs. apply elem_of_list_to_set in Hs.
    apply list_elem_of_fmap in Hs as (j & -> & Hj). apply elem_of_seq in Hj.
    apply elem_of_dom. apply Hall. lia. }
  apply subseteq_size in Hsub.
  rewrite size_list_to_set in Hsub.
  - unfold names in Hsub. rewrite length_fmap, length_seq, size_dom in Hsub. lia.
  - apply (@NoDup_fmap_2 _ _ cand (candidate_inj base)). apply NoDup_seq.
Qed.

Lemma rotateName_unfold l w :
  rotateName l w =
    let base := File (c l) +:+ "." +:+ rotateSuffix l in
    match dir w !! base with
    | Some _ => default base (firstFree (S (size (dir w))) w base 0)
    | None => base
    end.
Proof.
  unfold rotateName, os_Stat, os_IsExist. cbv zeta.
  destruct (dir w !! _); reflexivity.
Qed.

(** C2, as the code has it.  Every rollover renames the configured path to
    [rotateName].  That name is the path, a dot and the sink's stored suffix
    when no such file exists, and otherwise that followed by [.N] for the
    smallest [N >= 0] whose name does not exist.  The stored suffix is
    [Format SuffixFormat] of a clock reading and the layout starts with a
    dot of its own, so the path is followed by two dots and six digits. *)
Theorem rotated_name_shape (l : fileLogger) (w : World) (t : Time) :
  let base := File (c l) +:+ "." +:+ rotateSuffix l in
  renames (rotating l w).2 = renames w ++ [(File (c l), rotateName l w)] /\
  (dir w !! base = None -> rotateName l w = base) /\
  (dir w !! base ≠ None ->
     exists n : nat,
       rotateName l w = base +:+ "." +:+ pretty n /\
       dir w !! rotateName l w = None /\
       forall j : nat, (j < n)%nat -> dir w !! (base +:+ "." +:+ pretty j) ≠ None) /\
  (rotateSuffix l = Format SuffixFormat t ->
     base = File (c l) +:+ ".." +:+ twoDigits (t_hour t) +:+ twoDigits (t_minute t)
              +:+ twoDigits (t_second t)).
Proof.
  intros base. split; [apply rotating_renames|]. split; [|split].
  - intros Hnone. rewrite rotateName_unfold. cbv zeta. fold base. by rewrite Hnone.
  - intros Hsome. rewrite rotateName_unfold. cbv zeta. fold base.
    destruct (dir w !! base) as [ino|] eqn:E; [|by destruct Hsome].
    destruct (firstFree_total w base) as [name Hname]. rewrite Hname. cbn.
    destruct (firstFree_spec _ _ _ _ _ Hname) as (k & _ & -> & Hfree & Htaken).
    exists k. split; [reflexivity|]. split; [exact Hfree|].
    intros j Hj. apply Htaken. lia.
  - intros Hs. unfold base. rewrite Hs. cbn. rewrite append_empty_r. reflexivity.
Qed.

(** The sink opened at 10:15:42 on ["app.log"]: the rotated name has two
    dots, and with that name and its [.0] variant taken it becomes [.1]. *)
Lemma rotated_name_shape_witness :
  rotateName (sinkOf sizeConfig) world1 = "app.log..101542"%string /\
  rotateName (sinkOf sizeConfig) world1 ≠ "app.log.101542"%string /\
  rotateName (sinkOf sizeConfig) crowdedWorld = "app.log..101542.1"%string.
Proof.
  destruct (rotated_name_shape (sinkOf sizeConfig) world1 t0) as (_ & H & _ & _).
  split; [|split].
  - rewrite H; reflexivity.
  - rewrite H by reflexivity. vm_compute. discriminate.
  - vm_compute. reflexivity.
Defined.

(** ** Rotation by size *)

Ltac explode30 d H :=
  do 30 (destruct d as [|? d]; [discriminate H|]);
  destruct d; [clear H|discriminate H].

Lemma sizeScenario_bytes (r1 r2 r3 r4 r5 : record) :
  length (data (buffer r1)) = 30%nat -> length (data (buffer r2)) = 30%nat ->
  length (data (buffer r3)) = 30%nat -> length (data (buffer r4)) = 30%nat ->
  length (data (buffer r5)) = 30%nat ->
  sizeScenarioHolds r1 r2 r3 r4 r5.
Proof.
  destruct r1 as [a1 [d1 c1] h1 ? ? ? ? ?], r2 as [a2 [d2 c2] h2 ? ? ? ? ?],
    r3 as [a3 [d3 c3] h3 ? ? ? ? ?], r4 as [a4 [d4 c4] h4 ? ? ? ? ?],
    r5 as [a5 [d5 c5] h5 ? ? ? ? ?].
  cbn [buffer data]. intros L1 L2 L3 L4 L5.
  explode30 d1 L1. explode30 d2 L2. explode30 d3 L3. explode30 d4 L4. explode30 d5 L5.
  unfold sizeScenarioHolds. vm_compute. repeat split; reflexivity.
Qed.

(** C1, as the code has it.  With [RotateBytes = 100], no calendar cycle and
    five records of thirty bytes written directly: the first three writes
    leave the budget at 10 and rename nothing; the fourth brings it to -20,
    so the sink rolls over before it appends the fourth record and the
    budget is 100 again; the fifth renames nothing.  After a flush the one
    rotated file holds the first three records and the active file holds
    the fourth and the fifth. *)
Theorem size_rotation_scenario (r1 r2 r3 r4 r5 : record) :
  len (buffer r1) = 30 -> len (buffer r2) = 30 -> len (buffer r3) = 30 ->
  len (buffer r4) = 30 -> len (buffer r5) = 30 ->
  let st3 := writeAll [r1; r2; r3] (sinkOf sizeConfig) world1 in
  let st4 := WriteDirect r4 st3.1 st3.2 in
  let st5 := WriteDirect r5 st4.1 st4.2 in
  let fin := Flush st5.1 st5.2 in
  (renames st3.2 = [] /\ rotateRemain st3.1 = 10) /\
  (renames st4.2 = [("app.log", "app.log..101542")]%string /\ rotateRemain st4.1 = 100) /\
  (renames fin.2 = [("app.log", "app.log..101542")]%string /\ rotateRemain fin.1 = 70) /\
  readFile fin.2 "app.log..101542" =
    Some (data (buffer r1) ++ data (buffer r2) ++ data (buffer r3)) /\
  readFile fin.2 "app.log" = Some (data (buffer r4) ++ data (buffer r5)).
Proof.
  unfold len. intros H1 H2 H3 H4 H5.
  apply sizeScenario_bytes; lia.
Qed.

(** The scenario on five records filled with the letters a to e. *)
Lemma size_rotation_scenario_witness :
  sizeScenarioHolds (rec30 1 x61) (rec30 2 x62) (rec30 3 x63) (rec30 4 x64) (rec30 5 x65).
Proof.
  exact (size_rotation_scenario (rec30 1 x61) (rec30 2 x62) (rec30 3 x63)
           (rec30 4 x64) (rec30 5 x65) eq_refl eq_refl eq_refl eq_refl eq_refl).
Defined.

(** The claim's contents fail on the code: the rotated file does not hold
    the fourth record and the active file does not hold the fifth alone. *)
Lemma size_rotation_claimed_contents_fail :
  readFile fiveWrites.2 "app.log..101542" ≠
    Some (replicate 30 x61 ++ replicate 30 x62 ++ replicate 30 x63 ++ replicate 30 x64) /\
  readFile fiveWrites.2 "app.log" ≠ Some (replicate 30 x65).
Proof. split; vm_compute; discriminate. Qed.

(** A full disk under a sink with an eight-byte buffer: the append fails,
    the failure is printed, and the record is in the pool afterwards. *)
Lemma WriteDirect_reports_and_releases_witness :
  let w := mkWorld (dir world1) (inodes world1) (fds world1) (names world1)
             1 1 t0 [] [] [] ∅ true in
  let r := recordAt 1 t0 (replicate 30 x61) in
  pool (recs (WriteDirect r (sinkOf smallBufConfig) w).1) = [r] /\
  stderr (WriteDirect r (sinkOf smallBufConfig) w).2 =
    bytes_of "logger write error: write app.log: no space left on device".
Proof.
  intros w r.
  destruct (WriteDirect_reports_and_releases r (sinkOf smallBufConfig) w)
    as (Hrecs & Herr & _).
  split.
  - rewrite Hrecs. reflexivity.
  - rewrite (Herr (PathError "write" "app.log" ErrNoSpace) eq_refl). reflexivity.
Defined.

(** * Further properties of the code *)

(** ** Writes that succeed *)

Lemma World_eta w :
  mkWorld (dir w) (inodes w) (fds w) (names w) (nextIno w) (nextFd w) (now w)
          (stdout w) (stderr w) (renames w) (denied w) (diskFull w) = w.
Proof. destruct w; reflexivity. Qed.

Lemma os_Write_ok f bs w :
  writable f w -> os_Write f bs w = (None, appendTo f bs w).
Proof.
  unfold appendTo, os_Write, writable.
  destruct f as [| |n]; [reflexivity|reflexivity|].
  intros [(ino & -> & _) ->]. reflexivity.
Qed.

Lemma written_appendTo f bs w :
  writable f w -> written f (appendTo f bs w) = written f w ++ bs.
Proof.
  unfold appendTo, os_Write, writable, written.
  destruct f as [| |n]; [reflexivity|reflexivity|].
  intros [(ino & Hfd & _) ->]. rewrite Hfd. cbn. rewrite Hfd.
  by rewrite lookup_insert_eq.
Qed.

Lemma writable_appendTo f bs w : writable f w -> writable f (appendTo f bs w).
Proof.
  unfold appendTo, os_Write, writable.
  destruct f as [| |n]; [done|done|].
  intros [(ino & Hfd & Hi) Hd]. rewrite Hfd, Hd. cbn.
  split; [|reflexivity]. exists ino. split; [exact Hfd|].
  rewrite lookup_insert_eq. eauto.
Qed.

Lemma appendTo_nil f w : writable f w -> appendTo f [] w = w.
Proof.
  unfold appendTo, os_Write, writable.
  destruct f as [| |n]; cbn.
  - intros _. rewrite app_nil_r. apply World_eta.
  - intros _. rewrite app_nil_r. apply World_eta.
  - intros [(ino & Hfd & [c Hc]) Hd]. destruct w; cbn in *. subst.
    rewrite Hfd. cbn. rewrite Hc. cbn.
    rewrite app_nil_r, insert_id by exact Hc. reflexivity.
Qed.

Lemma appendTo_appendTo f b1 b2 w :
  writable f w -> appendTo f b2 (appendTo f b1 w) = appendTo f (b1 ++ b2) w.
Proof.
  unfold appendTo, os_Write, writable.
  destruct f as [| |n]; cbn.
  - intros _. by rewrite app_assoc.
  - intros _. by rewrite app_assoc.
  - intros [(ino & Hfd & _) Hd]. rewrite Hfd, Hd. cbn. rewrite Hfd.
    rewrite lookup_insert_eq, insert_insert_eq. cbn. by rewrite app_assoc.
Qed.

(** The loop of [bufio.Writer.Write] on a writer that can write: no error
    arises, and the bytes passed on to the destination followed by the bytes
    kept are the bytes held before followed by the bytes given. *)
Lemma bufio_loop_ok fuel : forall b p w,
  werr b = None -> writable (wr b) w ->
  exists flushed,
    (bufio_loop fuel b p w).2 = appendTo (wr b) flushed w /\
    werr (bufio_loop fuel b p w).1.1 = None /\
    wr (bufio_loop fuel b p w).1.1 = wr b /\
    wsize (bufio_loop fuel b p w).1.1 = wsize b /\
    flushed ++ wbuf (bufio_loop fuel b p w).1.1 ++ (bufio_loop fuel b p w).1.2 =
      wbuf b ++ p.
Proof.
  induction fuel as [|fuel IH]; intros b p w He Hw.
  { exists []. cbn. rewrite appendTo_nil by exact Hw. done. }
  cbn [bufio_loop].
  destruct ((Available b <? Z.of_nat (length p)) && bool_decide (werr b = None)).
  2:{ exists []. cbn. rewrite appendTo_nil by exact Hw. done. }
  destruct (Buffered b =? 0) eqn:Hb.
  - rewrite (os_Write_ok _ p _ Hw).
    destruct (IH b [] (appendTo (wr b) p w) He (writable_appendTo _ _ _ Hw))
      as (fl & Hw' & He' & Hwr & Hsz & Hbytes).
    exists (p ++ fl). rewrite Hw', appendTo_appendTo by exact Hw.
    repeat (split; [done|]).
    assert (wbuf b = []) as Hnil.
    { apply Z.eqb_eq in Hb. unfold Buffered in Hb. destruct (wbuf b); [done|]. cbn in Hb. lia. }
    rewrite Hnil in *. cbn in Hbytes |- *. rewrite <- app_assoc, Hbytes. by rewrite app_nil_r.
  - cbv zeta. unfold bufio_Flush. cbn [werr wr wbuf wsize]. rewrite He.
    set (n := Z.to_nat (Available b)).
    destruct (Buffered (mkWriter (wr b) (wbuf b ++ take n p) (wsize b) None) =? 0)
      eqn:Hfull.
    + cbv beta iota.
      set (b1 := mkWriter (wr b) (wbuf b ++ take n p) (wsize b) None).
      destruct (IH b1 (drop n p) w eq_refl Hw) as (fl & Hw' & He' & Hwr & Hsz & Hbytes).
      exists fl. repeat (split; [done|]). rewrite Hbytes. cbn.
      by rewrite <- app_assoc, take_drop.
    + rewrite (os_Write_ok _ _ _ Hw). cbv beta iota.
      set (b2 := mkWriter (wr b) [] (wsize b) None).
      destruct (IH b2 (drop n p) (appendTo (wr b) (wbuf b ++ take n p) w) eq_refl
                  (writable_appendTo _ _ _ Hw)) as (fl & Hw' & He' & Hwr & Hsz & Hbytes).
      exists ((wbuf b ++ take n p) ++ fl).
      rewrite Hw', appendTo_appendTo by exact Hw.
      repeat (split; [done|]). rewrite <- !app_assoc, Hbytes. cbn.
      by rewrite take_drop.
Qed.

Lemma bufio_Write_ok b p w :
  werr b = None -> writable (wr b) w ->
  exists flushed b',
    bufio_Write b p w = (None, b', appendTo (wr b) flushed w) /\
    werr b' = None /\ wr b' = wr b /\ wsize b' = wsize b /\
    flushed ++ wbuf b' = wbuf b ++ p.
Proof.
  intros He Hw. unfold bufio_Write.
  destruct (bufio_loop_ok 3 b p w He Hw) as (fl & Hw' & He' & Hwr & Hsz & Hbytes).
  destruct (bufio_loop 3 b p w) as [[b' p'] w']. cbn in *.
  rewrite He'. subst w'. eexists fl, _. split; [reflexivity|]. cbn.
  repeat (split; [done|]). exact Hbytes.
Qed.

Lemma bufio_Flush_ok b w :
  werr b = None -> writable (wr b) w ->
  bufio_Flush b w =
    (None, mkWriter (wr b) [] (wsize b) None, appendTo (wr b) (wbuf b) w).
Proof.
  intros He Hw. unfold bufio_Flush. rewrite He.
  destruct (Buffered b =? 0) eqn:Hb.
  - assert (wbuf b = []) as Hnil.
    { apply Z.eqb_eq in Hb. unfold Buffered in Hb. destruct (wbuf b); [done|]. cbn in Hb. lia. }
    rewrite Hnil, appendTo_nil by exact Hw.
    destruct b; cbn in *; subst; reflexivity.
  - by rewrite (os_Write_ok _ _ _ Hw).
Qed.

Lemma appendTo_frame f bs w :
  dir (appendTo f bs w) = dir w /\ fds (appendTo f bs w) = fds w /\
  renames (appendTo f bs w) = renames w /\ now (appendTo f bs w) = now w /\
  denied (appendTo f bs w) = denied w /\ diskFull (appendTo f bs w) = diskFull w /\
  nextIno (appendTo f bs w) = nextIno w /\ nextFd (appendTo f bs w) = nextFd w /\
  (f ≠ Stderr -> stderr (appendTo f bs w) = stderr w).
Proof.
  unfold appendTo, os_Write.
  destruct f as [| |n]; cbn.
  - split_and!; done.
  - split_and!; done.
  - destruct (fds w !! n); [destruct (diskFull w) eqn:E|]; cbn; split_and!; done.
Qed.

Lemma beforeWrite_idle r l w :
  rotationDue l r = false ->
  (beforeWrite r l w).2 = w /\
  writer (beforeWrite r l w).1 = writer l /\ file (beforeWrite r l w).1 = file l /\
  rotate (beforeWrite r l w).1 = rotate l /\ c (beforeWrite r l w).1 = c l.
Proof.
  unfold rotationDue, sizeDue, beforeWrite. intros H.
  destruct (rotate l) eqn:Hr; [|done]. cbn in H.
  destruct ((CycleOff <? RotateCycle (c l)) && cycleDue l r); [done|]. cbn in H.
  destruct (0 <? RotateBytes (c l)); [|done]. cbn in H. cbn.
  rewrite H. cbn. done.
Qed.

(** X1.  A direct write for which no rollover is due, on a sink that can
    write, only adds the record's bytes after everything the sink had
    accepted: nothing is renamed, nothing else is changed in the
    destination, the sink stays able to write, and nothing is printed on
    the diagnostic stream. *)
Theorem WriteDirect_appends (r : record) (l : fileLogger) (w : World) :
  healthy l w ->
  rotationDue l r = false ->
  let st := WriteDirect r l w in
  accepted st.1 st.2 = accepted l w ++ data (buffer r) /\
  healthy st.1 st.2 /\
  file st.1 = file l /\ rotate st.1 = rotate l /\
  renames st.2 = renames w /\ dir st.2 = dir w /\
  (file l ≠ Stderr -> stderr st.2 = stderr w).
Proof.
  intros (Hwr & He & Hsz & Hw) Hdue st. subst st.
  rewrite WriteDirect_unfold.
  destruct (beforeWrite_idle r l w Hdue) as (-> & Hwri & Hf & Hrot & _).
  unfold writeRecord. rewrite Hwri.
  rewrite <- Hwr in Hw.
  destruct (bufio_Write_ok (writer l) (data (buffer r)) w He Hw)
    as (fl & b' & -> & He' & Hwr' & Hsz' & Hbytes).
  cbn [fst snd set_recs set_writer file writer rotate].
  destruct (appendTo_frame (wr (writer l)) fl w) as (Hdir & _ & Hren & _ & _ & _ & _ & _ & Herr).
  unfold accepted, healthy, set_recs, set_writer. cbn [file writer].
  rewrite Hf, <- !Hwr.
  rewrite written_appendTo by exact Hw.
  split; [by rewrite <- !app_assoc, Hbytes|].
  split; [repeat split; try congruence; by apply writable_appendTo|].
  repeat (split; [done|]). exact Herr.
Qed.

(** On a sink that can write, [Flush] passes on what the buffer holds and
    leaves it empty. *)
Lemma Flush_ok l w :
  healthy l w ->
  written (file l) (Flush l w).2 = accepted l w /\
  wbuf (writer (Flush l w).1) = [] /\
  healthy (Flush l w).1 (Flush l w).2 /\
  renames (Flush l w).2 = renames w.
Proof.
  intros (Hwr & He & Hsz & Hw). unfold Flush.
  rewrite <- Hwr in Hw. rewrite (bufio_Flush_ok _ _ He Hw).
  cbn. unfold os_Sync, accepted, healthy. cbn. rewrite <- Hwr.
  rewrite written_appendTo by exact Hw.
  destruct (appendTo_frame (wr (writer l)) (wbuf (writer l)) w) as (_ & _ & Hren & _).
  repeat split; try done. by apply writable_appendTo.
Qed.

Lemma WriteDirect_appends_witness :
  written (Fd 0) (Flush (WriteDirect (recordAt 1 t0 [x68; x69; x0a]) pendingSink world2).1
                        (WriteDirect (recordAt 1 t0 [x68; x69; x0a]) pendingSink world2).2).2
  = bytes_of "old entry" ++ [x0a; x41; x42; x0a; x68; x69; x0a].
Proof.
  assert (H0 : healthy pendingSink world2).
  { repeat split; try reflexivity. exists 0%nat. split; [reflexivity|]. by eexists. }
  destruct (WriteDirect_appends (recordAt 1 t0 [x68; x69; x0a]) pendingSink world2 H0 eq_refl)
    as (Hacc & Hh & Hf & _).
  destruct (Flush_ok _ _ Hh) as (Hw & _).
  rewrite Hf in Hw. change (file pendingSink) with (Fd 0) in Hw.
  rewrite Hw, Hacc. reflexivity.
Defined.

(** ** Order of writes *)

(** One idle step of a sink that can write, as the induction over a run of
    writes needs it. *)
Lemma WriteDirect_idle r l w :
  healthy l w -> rotationDue l r = false ->
  accepted (WriteDirect r l w).1 (WriteDirect r l w).2 = accepted l w ++ data (buffer r) /\
  healthy (WriteDirect r l w).1 (WriteDirect r l w).2 /\
  file (WriteDirect r l w).1 = file l /\ rotate (WriteDirect r l w).1 = rotate l /\
  renames (WriteDirect r l w).2 = renames w.
Proof.
  intros (Hwr & He & Hsz & Hw) Hdue.
  pose proof (WriteDirect_renames r l w) as Hren.
  rewrite Hdue, app_nil_r in Hren. revert Hren.
  rewrite WriteDirect_unfold.
  destruct (beforeWrite_idle r l w Hdue) as (-> & Hwri & Hf & Hrot & _).
  unfold writeRecord. rewrite Hwri.
  rewrite <- Hwr in Hw.
  destruct (bufio_Write_ok (writer l) (data (buffer r)) w He Hw)
    as (fl & b' & -> & He' & Hwr' & Hsz' & Hbytes).
  cbn [fst snd]. intros Hren.
  unfold accepted, healthy, set_recs, set_writer. cbn [file writer rotate].
  rewrite Hf, <- !Hwr.
  rewrite written_appendTo by exact Hw.
  split; [by rewrite <- !app_assoc, Hbytes|].
  split; [repeat split; try congruence; by apply writable_appendTo|].
  split; [reflexivity|]. split; [exact Hrot|exact Hren].
Qed.

Lemma writeAll_cons r rs l w :
  writeAll (r :: rs) l w = writeAll rs (WriteDirect r l w).1 (WriteDirect r l w).2.
Proof. unfold writeAll. cbn. by destruct (WriteDirect r l w). Qed.

(** A run of direct writes on a sink without rotation that can write. *)
Lemma writeAll_ok rs : forall l w,
  healthy l w -> rotate l = false ->
  accepted (writeAll rs l w).1 (writeAll rs l w).2 =
    accepted l w ++ concat (map (fun r => data (buffer r)) rs) /\
  healthy (writeAll rs l w).1 (writeAll rs l w).2 /\
  file (writeAll rs l w).1 = file l /\
  renames (writeAll rs l w).2 = renames w.
Proof.
  induction rs as [|r rs IH]; intros l w Hh Hrot.
  - cbn. by rewrite app_nil_r.
  - rewrite writeAll_cons.
    assert (Hdue : rotationDue l r = false) by (unfold rotationDue; by rewrite Hrot).
    destruct (WriteDirect_idle r l w Hh Hdue) as (Hacc & Hh' & Hf & Hrot' & Hren).
    destruct (IH _ _ Hh' ltac:(congruence)) as (Hacc2 & Hh2 & Hf2 & Hren2).
    rewrite Hacc2, Hacc, Hf2, Hf, Hren2, Hren. cbn. by rewrite <- app_assoc.
Qed.

(** X2.  On a sink without rotation (every sink on a standard stream, and
    every file sink with neither a size nor a cycle configured) that can
    write, any number of direct writes followed by a flush leaves in the
    destination what was there, then what the buffer held, then the
    records' bytes in the order of the calls, and renames nothing. *)
Theorem writes_arrive_in_order (rs : list record) (l : fileLogger) (w : World) :
  healthy l w ->
  rotate l = false ->
  let st := writeAll rs l w in
  let fin := Flush st.1 st.2 in
  written (file l) fin.2 =
    written (file l) w ++ wbuf (writer l) ++ concat (map (fun r => data (buffer r)) rs) /\
  renames fin.2 = renames w.
Proof.
  intros Hh Hrot. cbv zeta.
  destruct (writeAll_ok rs l w Hh Hrot) as (Hacc & Hh' & Hf & Hren).
  destruct (Flush_ok _ _ Hh') as (Hw & _ & _ & Hren').
  rewrite Hf in Hw. rewrite Hw, Hacc, Hren', Hren. unfold accepted.
  by rewrite <- app_assoc.
Qed.

Lemma writes_arrive_in_order_witness :
  written (Fd 0)
    (Flush (writeAll [recordAt 1 t0 [x31]; recordAt 2 t0 [x32]; recordAt 3 t0 [x33]]
              pendingSink world2).1
           (writeAll [recordAt 1 t0 [x31]; recordAt 2 t0 [x32]; recordAt 3 t0 [x33]]
              pendingSink world2).2).2
  = bytes_of "old entry" ++ [x0a; x41; x42; x0a; x31; x32; x33].
Proof.
  assert (H0 : healthy pendingSink world2).
  { repeat split; try reflexivity. exists 0%nat. split; [reflexivity|]. by eexists. }
  destruct (writes_arrive_in_order
              [recordAt 1 t0 [x31]; recordAt 2 t0 [x32]; recordAt 3 t0 [x33]]
              pendingSink world2 H0 eq_refl) as [H _].
  exact H.
Defined.

(** ** Flushing twice *)

(** X3.  [Flush] is idempotent: a second flush right after a first changes
    neither the sink nor the world, whether the first one wrote, had
    nothing to write, or failed (the error stays pending in the writer and
    the bytes stay in its buffer). *)
Theorem Flush_idempotent (l : fileLogger) (w : World) :
  Flush (Flush l w).1 (Flush l w).2 = Flush l w.
Proof.
  unfold Flush, bufio_Flush, os_Sync.
  destruct (werr (writer l)) as [e|] eqn:He.
  { cbn. rewrite He. reflexivity. }
  destruct (Buffered (writer l) =? 0) eqn:Hb.
  { cbn. rewrite He, Hb. reflexivity. }
  destruct (os_Write (wr (writer l)) (wbuf (writer l)) w) as [[e|] w']; cbn.
  - reflexivity.
  - reflexivity.
Qed.

(** ** What a rollover does to the files *)

Lemma string_length_app (s t : string) :
  String.length (s +:+ t) = (String.length s + String.length t)%nat.
Proof.
  induction s as [|a s IH]; [reflexivity|].
  change (S (String.length (s +:+ t)) = S (String.length s + String.length t)).
  by rewrite IH.
Qed.

Lemma rotateName_fresh l w : dir w !! rotateName l w = None.
Proof.
  rewrite rotateName_unfold. cbv zeta.
  destruct (dir w !! (File (c l) +:+ "." +:+ rotateSuffix l)) as [ino|] eqn:E;
    [|exact E].
  destruct (firstFree_total w (File (c l) +:+ "." +:+ rotateSuffix l)) as [name Hname].
  rewrite Hname. cbn.
  by destruct (firstFree_spec _ _ _ _ _ Hname) as (k & _ & _ & Hfree & _).
Qed.

Lemma rotateName_longer l w :
  (String.length (File (c l)) < String.length (rotateName l w))%nat.
Proof.
  rewrite rotateName_unfold. cbv zeta.
  destruct (dir w !! _) as [ino|].
  - destruct (firstFree_total w (File (c l) +:+ "." +:+ rotateSuffix l)) as [name Hname].
    rewrite Hname. cbn.
    destruct (firstFree_spec _ _ _ _ _ Hname) as (k & _ & -> & _).
    rewrite !string_length_app. cbn. lia.
  - rewrite !string_length_app. cbn. lia.
Qed.

Lemma rotateName_ne_File l w : rotateName l w ≠ File (c l).
Proof.
  intros H. pose proof (rotateName_longer l w) as Hlen. rewrite H in Hlen. lia.
Qed.

Lemma appendTo_Fd n ino bs w :
  fds w !! n = Some ino -> diskFull w = false ->
  appendTo (Fd n) bs w =
    mkWorld (dir w) (<[ino := default [] (inodes w !! ino) ++ bs]> (inodes w))
            (fds w) (names w) (nextIno w) (nextFd w) (now w) (stdout w) (stderr w)
            (renames w) (denied w) (diskFull w).
Proof. unfold appendTo, os_Write. intros -> ->. reflexivity. Qed.

(** The world and the sink after a rollover of an attached sink that can
    write, spelled out. *)
Lemma rotating_attached l w n ino :
  healthy l w -> attached l w n ino ->
  let rn := rotateName l w in
  let content := default [] (inodes w !! ino) ++ wbuf (writer l) in
  rotating l w =
    (reopened (Fd (nextFd w)) (now w)
       (set_writer (mkWriter (Fd n) [] (wsize (writer l)) None) l),
     mkWorld (<[File (c l) := nextIno w]> (<[rn := ino]> (delete (File (c l)) (dir w))))
             (<[nextIno w := []]> (<[ino := content]> (inodes w)))
             (<[nextFd w := nextIno w]> (delete n (fds w))) (<[nextFd w := File (c l)]> (names w))
             (S (nextIno w)) (S (nextFd w)) (now w) (stdout w) (stderr w)
             (renames w ++ [(File (c l), rn)]) (denied w) (diskFull w)).
Proof.
  intros (Hwr & He & Hsz & Hw) (Hf & Hfd & Hdir & Hinj & Hlt & Hne & Hden & Hso & Hse).
  intros rn content. unfold rotating. fold rn.
  rewrite Hf in Hwr, Hw. pose proof Hw as [_ Hfull]. rewrite <- Hwr in Hw.
  rewrite (bufio_Flush_ok _ _ He Hw). rewrite Hwr.
  rewrite (appendTo_Fd n ino _ w Hfd Hfull). fold content.
  set (l1 := set_writer (mkWriter (Fd n) [] (wsize (writer l)) None) l).
  change (c l1) with (c l). change (file l1) with (file l). rewrite Hf.
  unfold os_Close, os_Rename. cbn [dir inodes fds nextIno nextFd now stdout stderr
    renames denied diskFull]. rewrite Hdir.
  unfold ToFile. rewrite !bool_decide_eq_false_2 by assumption.
  unfold os_OpenFile. cbn [dir inodes fds nextIno nextFd now stdout stderr
    renames denied diskFull].
  rewrite !bool_decide_eq_false_2 by assumption.
  rewrite lookup_insert_ne by apply rotateName_ne_File.
  rewrite lookup_delete_eq. reflexivity.
Qed.

(** X4.  A rollover of an attached sink that can write loses nothing and
    touches nothing else: the rotated file holds everything the sink had
    accepted (what was in the file and what was still buffered), the
    configured path names a new empty file, every other path keeps its
    content, the new name was not in use before, the sink comes out able to
    write with an empty buffer, its budget back at [RotateBytes] and its
    calendar snapshot at the clock, and nothing is printed. *)
Theorem rollover_moves_content (l : fileLogger) (w : World) (n ino : nat) :
  healthy l w -> attached l w n ino ->
  let st := rotating l w in
  dir w !! rotateName l w = None /\
  readFile st.2 (rotateName l w) = Some (accepted l w) /\
  readFile st.2 (File (c l)) = Some [] /\
  (forall p, p ≠ File (c l) -> p ≠ rotateName l w -> readFile st.2 p = readFile w p) /\
  healthy st.1 st.2 /\ accepted st.1 st.2 = [] /\
  rotateRemain st.1 = RotateBytes (c l) /\
  (rotateMonth st.1, rotateWeek st.1, rotateDay st.1, rotateHour st.1) =
    (t_month (now w), t_weekday (now w), t_day (now w), t_hour (now w)) /\
  stderr st.2 = stderr w.
Proof.
  intros Hh Ha. pose proof (rotating_attached l w n ino Hh Ha) as Hrot.
  cbv zeta in Hrot |- *. rewrite Hrot. clear Hrot.
  destruct Hh as (Hwr & He & Hsz & Hw).
  destruct Ha as (Hf & Hfd & Hdir & Hinj & Hlt & Hne & Hden & Hso & Hse).
  pose proof (rotateName_ne_File l w) as Hrn.
  pose proof (Hlt _ _ Hdir) as Hino. rewrite Hf in Hw.
  cbn [fst snd]. split; [apply rotateName_fresh|].
  unfold readFile. cbn [dir inodes].
  split; [|split; [|split; [|split; [|split]]]].
  - rewrite lookup_insert_ne by congruence. rewrite lookup_insert_eq. cbn.
    rewrite lookup_insert_ne by lia. rewrite lookup_insert_eq.
    unfold accepted, written. by rewrite Hf, Hfd.
  - rewrite lookup_insert_eq. cbn. by rewrite lookup_insert_eq.
  - intros p Hp1 Hp2.
    rewrite !lookup_insert_ne by congruence. rewrite lookup_delete_ne by congruence.
    destruct (dir w !! p) as [i|] eqn:Ei; [|reflexivity]. cbn.
    pose proof (Hlt _ _ Ei).
    rewrite lookup_insert_ne by lia.
    rewrite lookup_insert_ne; [reflexivity|].
    intros ->. by apply Hp1, Hinj.
  - unfold healthy, reopened, NewWriterSize, writable.
    cbn [file writer wr werr wsize fds inodes diskFull].
    split; [reflexivity|]. split; [reflexivity|].
    split; [destruct (_ <=? 0) eqn:E; [lia|by apply Z.leb_gt in E]|].
    split; [|by destruct Hw].
    exists (nextIno w). rewrite !lookup_insert_eq. eauto.
  - unfold accepted, written, reopened, NewWriterSize.
    cbn [file writer wbuf fds inodes]. rewrite !lookup_insert_eq. reflexivity.
  - repeat split.
Qed.

Lemma rollover_moves_content_witness :
  readFile (rotating rotatingSink world3).2 "app.log..101542" =
    Some (bytes_of "old entry" ++ [x0a; x41; x42; x0a]) /\
  readFile (rotating rotatingSink world3).2 "app.log" = Some [] /\
  readFile (rotating rotatingSink world3).2 "app.log..093000" = Some (bytes_of "older").
Proof.
  assert (Hh : healthy rotatingSink world3).
  { repeat split; try reflexivity. exists 0%nat. split; [reflexivity|]. by eexists. }
  assert (Ha : attached rotatingSink world3 0 0).
  { unfold attached. split_and!; try done.
    - intros p Hp. unfold world3 in Hp. cbn [dir] in Hp.
      apply lookup_insert_Some in Hp as [[<- _]|[_ Hp]]; [done|].
      apply lookup_singleton_Some in Hp as [_ Hp]. discriminate Hp.
    - intros p i Hp. unfold world3 in Hp |- *. cbn [dir nextIno] in Hp |- *.
      apply lookup_insert_Some in Hp as [[_ <-]|[_ Hp]]; [lia|].
      apply lookup_singleton_Some in Hp as [_ <-]. lia. }
  destruct (rollover_moves_content rotatingSink world3 0 0 Hh Ha)
    as (_ & Hrot & Hact & Hother & _).
  assert (E : rotateName rotatingSink world3 = "app.log..101542"%string)
    by (vm_compute; reflexivity).
  rewrite E in Hrot, Hother.
  split; [|split].
  - rewrite Hrot. reflexivity.
  - exact Hact.
  - rewrite Hother; [reflexivity| |]; discriminate.
Defined.

(** ** Errors that stay *)

Lemma bufio_Write_pending b p w e :
  werr b = Some e -> bufio_Write b p w = (Some e, b, w).
Proof.
  intros He. unfold bufio_Write. cbn [bufio_loop].
  rewrite He. rewrite bool_decide_eq_false_2 by discriminate.
  rewrite andb_false_r. by rewrite He.
Qed.

(** X5.  Once the buffered writer has an error pending, a direct write for
    which no rollover is due does not take the record's bytes at all: the
    writer is left exactly as it was, the pending error is printed on the
    diagnostic stream once more, the world is otherwise untouched, and the
    record still goes through [Put]. *)
Theorem pending_error_drops_writes (r : record) (l : fileLogger) (w : World) (e : error) :
  werr (writer l) = Some e ->
  rotationDue l r = false ->
  let st := WriteDirect r l w in
  st.2 = eprint ("logger write error: " +:+ errorText e) w /\
  writer st.1 = writer l /\
  recs st.1 = Put r (recs l).
Proof.
  intros He Hdue st. subst st. rewrite WriteDirect_unfold.
  destruct (beforeWrite_idle r l w Hdue) as (Hw & Hwri & _).
  pose proof (beforeWrite_recs r l w) as Hrecs.
  unfold writeRecord. rewrite Hwri, Hw, (bufio_Write_pending _ _ _ e He).
  cbn. rewrite Hrecs. split; [reflexivity|]. split; [|reflexivity].
  rewrite <- Hwri. by destruct (writer (beforeWrite r l w).1).
Qed.

Lemma pending_error_drops_writes_witness :
  let st := WriteDirect (recordAt 1 t0 [x68; x69; x0a]) brokenSink world2 in
  stderr st.2 = bytes_of "logger write error: write app.log: no space left on device" /\
  wbuf (writer st.1) = [x41; x42; x0a] /\ inodes st.2 = inodes world2.
Proof.
  destruct (pending_error_drops_writes (recordAt 1 t0 [x68; x69; x0a]) brokenSink world2
              (PathError "write" "app.log" ErrNoSpace) eq_refl eq_refl) as (Hw & Hwri & _).
  cbv zeta. rewrite Hw, Hwri. repeat split.
Defined.

(** [Flush] does not look at the result of the writer's flush: whatever
    happens, it prints nothing (unless the sink writes to the diagnostic
    stream itself). *)
Lemma Flush_silent l w : wr (writer l) ≠ Stderr -> stderr (Flush l w).2 = stderr w.
Proof.
  intros Hne. unfold Flush, bufio_Flush, os_Sync.
  destruct (werr (writer l)); [reflexivity|].
  destruct (Buffered (writer l) =? 0); [reflexivity|].
  destruct (appendTo_frame (wr (writer l)) (wbuf (writer l)) w)
    as (_ & _ & _ & _ & _ & _ & _ & _ & H).
  unfold appendTo in H.
  destruct (os_Write (wr (writer l)) (wbuf (writer l)) w) as [[e|] w']; cbn in *; auto.
Qed.

(** ** A rollover whose reopen fails *)

Lemma bufio_Flush_frame b w :
  dir (bufio_Flush b w).2 = dir w /\ denied (bufio_Flush b w).2 = denied w /\
  fds (bufio_Flush b w).2 = fds w /\
  (wr b ≠ Stderr -> stderr (bufio_Flush b w).2 = stderr w).
Proof.
  unfold bufio_Flush.
  destruct (werr b); [done|]. destruct (Buffered b =? 0); [done|].
  destruct (appendTo_frame (wr b) (wbuf b) w)
    as (H1 & H2 & _ & _ & H3 & _ & _ & _ & H4).
  unfold appendTo in *.
  destruct (os_Write (wr b) (wbuf b) w) as [[e|] w']; cbn in *; auto.
Qed.

(** X6.  When the configured path cannot be opened again after the rename,
    [rotating] prints the failure and leaves the sink as it was apart from
    the flushed writer: same handle, now closed, same calendar snapshot,
    same budget, same suffix.  The active path is gone from the directory.
    Because the snapshot is not advanced, a record that asked for the
    calendar rollover still asks for it on the next write. *)
Theorem failed_reopen_keeps_snapshot (l : fileLogger) (w : World) (n : nat) :
  file l = Fd n -> wr (writer l) = Fd n ->
  File (c l) ∈ denied w ->
  File (c l) ≠ ""%string ->
  ToLower (File (c l)) ≠ STDOUT -> ToLower (File (c l)) ≠ STDERR ->
  let st := rotating l w in
  file st.1 = Fd n /\ fds st.2 !! n = None /\
  dir st.2 !! File (c l) = None /\
  stderr st.2 =
    stderr w ++ bytes_of ("logger open file error: " +:+ File (c l) +:+ ", " +:+
                          errorText (PathError "open" (File (c l)) ErrPermission)) /\
  (rotateMonth st.1, rotateWeek st.1, rotateDay st.1, rotateHour st.1,
   rotateRemain st.1, rotateSuffix st.1) =
  (rotateMonth l, rotateWeek l, rotateDay l, rotateHour l,
   rotateRemain l, rotateSuffix l) /\
  (forall r, cycleDue st.1 r = cycleDue l r).
Proof.
  intros Hf Hwr Hden Hne Hso Hse. cbv zeta. unfold rotating.
  destruct (bufio_Flush_frame (writer l) w) as (Hdir & Hdn & Hfds & Herr).
  destruct (bufio_Flush (writer l) w) as [[o b] w1]. cbn [snd] in *.
  set (l1 := set_writer b l).
  change (c l1) with (c l). change (file l1) with (file l). rewrite Hf.
  unfold ToFile. rewrite !bool_decide_eq_false_2 by assumption.
  unfold os_OpenFile, os_Rename, os_Close.
  cbn [dir inodes fds nextIno nextFd now stdout stderr renames denied diskFull].
  rewrite bool_decide_eq_false_2 by assumption.
  rewrite bool_decide_eq_true_2 by (by rewrite Hdn).
  cbn [fst snd eprint dir fds stderr].
  split; [exact Hf|]. split; [apply lookup_delete_eq|].
  split.
  { rewrite Hdir. destruct (dir w !! File (c l)) as [ino|] eqn:E; [|exact E].
    rewrite lookup_insert_ne by apply rotateName_ne_File. apply lookup_delete_eq. }
  split; [rewrite Herr; [reflexivity|rewrite Hwr; discriminate]|].
  split; reflexivity.
Qed.

Lemma failed_reopen_keeps_snapshot_witness :
  let st := rotating rotatingSink deniedWorld in
  fds st.2 !! 0%nat = None /\ readFile st.2 "app.log" = None /\
  rotateSuffix st.1 = ".101542"%string /\
  readFile st.2 "app.log..101542" = Some (bytes_of "old entry" ++ [x0a; x41; x42; x0a]).
Proof.
  destruct (failed_reopen_keeps_snapshot rotatingSink deniedWorld 0 eq_refl eq_refl)
    as (_ & Hfd & Hdir & _ & Hsnap & _).
  - vm_compute. set_solver.
  - discriminate.
  - discriminate.
  - discriminate.
  - change (File (c rotatingSink)) with "app.log"%string in Hdir.
    cbv zeta. split; [exact Hfd|]. split; [unfold readFile; by rewrite Hdir|].
    split; [by inversion Hsnap|]. vm_compute. reflexivity.
Defined.

(** ** The byte budget *)

Lemma appendTo_other_inode f bs w i :
  (forall k, f = Fd k -> fds w !! k ≠ Some i) ->
  inodes (appendTo f bs w) !! i = inodes w !! i.
Proof.
  unfold appendTo, os_Write. intros H.
  destruct f as [| |k]; [done|done|].
  destruct (fds w !! k) as [j|] eqn:E; [|done].
  destruct (diskFull w); [done|]. cbn.
  apply lookup_insert_ne. intros ->. by apply (H k eq_refl).
Qed.

Lemma writeRecord_ok r l w :
  healthy l w ->
  accepted (writeRecord r l w).1 (writeRecord r l w).2 = accepted l w ++ data (buffer r) /\
  healthy (writeRecord r l w).1 (writeRecord r l w).2 /\
  rotateRemain (writeRecord r l w).1 = rotateRemain l.
Proof.
  intros (Hwr & He & Hsz & Hw). unfold writeRecord.
  rewrite <- Hwr in Hw.
  destruct (bufio_Write_ok (writer l) (data (buffer r)) w He Hw)
    as (fl & b' & -> & He' & Hwr' & Hsz' & Hbytes).
  unfold accepted, healthy, set_recs, set_writer. cbn [fst snd file writer rotateRemain].
  rewrite <- !Hwr. rewrite written_appendTo by exact Hw.
  split; [by rewrite <- !app_assoc, Hbytes|].
  split; [|reflexivity].
  repeat split; try congruence. by apply writable_appendTo.
Qed.

(** The sink and the rotated file after a rollover of an attached sink. *)
Lemma rotating_attached_sink l w n ino :
  healthy l w -> attached l w n ino ->
  healthy (rotating l w).1 (rotating l w).2 /\
  accepted (rotating l w).1 (rotating l w).2 = [] /\
  rotateRemain (rotating l w).1 = RotateBytes (c l) /\
  readFile (rotating l w).2 (rotateName l w) = Some (accepted l w).
Proof.
  intros Hh Ha. pose proof (rotating_attached l w n ino Hh Ha) as Hrot.
  cbv zeta in Hrot. rewrite Hrot. clear Hrot.
  destruct Hh as (Hwr & He & Hsz & Hw).
  destruct Ha as (Hf & Hfd & Hdir & Hinj & Hlt & Hne & Hden & Hso & Hse).
  pose proof (rotateName_ne_File l w) as Hrn.
  pose proof (Hlt _ _ Hdir) as Hino. rewrite Hf in Hw.
  cbn [fst snd]. split; [|split; [|split]].
  - unfold healthy, reopened, NewWriterSize, writable.
    cbn [file writer wr werr wsize fds inodes diskFull].
    split; [reflexivity|]. split; [reflexivity|].
    split; [destruct (_ <=? 0) eqn:E; [lia|by apply Z.leb_gt in E]|].
    split; [|by destruct Hw].
    exists (nextIno w). rewrite !lookup_insert_eq. eauto.
  - unfold accepted, written, reopened, NewWriterSize.
    cbn [file writer wbuf fds inodes]. rewrite !lookup_insert_eq. reflexivity.
  - reflexivity.
  - unfold readFile. cbn [dir inodes].
    rewrite lookup_insert_ne by congruence. rewrite lookup_insert_eq. cbn.
    rewrite lookup_insert_ne by lia. rewrite lookup_insert_eq.
    unfold accepted, written. by rewrite Hf, Hfd.
Qed.

(** X7.  Size rotation, when no calendar rollover is due.  A record that
    fits the remaining budget is charged to it and nothing is renamed.  A
    record longer than the remaining budget makes the sink roll over first
    (one rename); on an attached sink that can write, the record is then
    the only content of the new file and the budget is the full
    [RotateBytes]: the record that crossed the threshold is not charged to
    the new file. *)
Theorem size_budget_law (r : record) (l : fileLogger) (w : World) (n ino : nat) :
  rotate l = true ->
  (CycleOff <? RotateCycle (c l)) && cycleDue l r = false ->
  0 < RotateBytes (c l) ->
  inInt64 (rotateRemain l - len (buffer r)) ->
  let st := WriteDirect r l w in
  (len (buffer r) <= rotateRemain l ->
     renames st.2 = renames w /\ rotateRemain st.1 = rotateRemain l - len (buffer r)) /\
  (rotateRemain l < len (buffer r) ->
     renames st.2 = renames w ++ [(File (c l), rotateName l w)] /\
     (healthy l w -> attached l w n ino ->
        rotateRemain st.1 = RotateBytes (c l) /\
        accepted st.1 st.2 = data (buffer r) /\
        readFile st.2 (rotateName l w) = Some (accepted l w))).
Proof.
  intros Hrot Hcy Hrb Hin. cbv zeta.
  assert (Hb : (0 <? RotateBytes (c l)) = true) by by apply Z.ltb_lt.
  split; intros Hlen.
  - assert (Hdue : rotationDue l r = false).
    { unfold rotationDue, sizeDue. rewrite Hrot, Hcy, Hb, (wrap64_id _ Hin). cbn.
      apply Z.ltb_ge. lia. }
    split; [rewrite WriteDirect_renames, Hdue; by rewrite app_nil_r|].
    rewrite WriteDirect_unfold. unfold beforeWrite.
    rewrite Hrot, Hcy, Hb. cbn [rotateRemain set_rotateRemain].
    rewrite (wrap64_id _ Hin).
    destruct (_ <? 0) eqn:E; [apply Z.ltb_lt in E; lia|].
    unfold writeRecord. cbn [fst snd].
    destruct (bufio_Write _ _ _) as [[o b] w']. reflexivity.
  - assert (Hdue : rotationDue l r = true).
    { unfold rotationDue, sizeDue. rewrite Hrot, Hcy, Hb, (wrap64_id _ Hin). cbn.
      apply Z.ltb_lt. lia. }
    split; [rewrite WriteDirect_renames, Hdue; reflexivity|].
    intros Hh Ha.
    rewrite WriteDirect_unfold. unfold beforeWrite.
    rewrite Hrot, Hcy, Hb. cbn [rotateRemain set_rotateRemain].
    rewrite (wrap64_id _ Hin).
    destruct (_ <? 0) eqn:E; [|apply Z.ltb_ge in E; lia].
    set (l2 := set_rotateRemain (rotateRemain l - len (buffer r)) l).
    assert (Hh2 : healthy l2 w) by exact Hh.
    assert (Ha2 : attached l2 w n ino) by exact Ha.
    destruct (rotating_attached_sink l2 w n ino Hh2 Ha2)
      as (Hh' & Hacc' & Hrem & Hrotf).
    destruct (writeRecord_ok r _ _ Hh') as (Hacc & _ & Hrem').
    split; [by rewrite Hrem', Hrem|].
    split; [by rewrite Hacc, Hacc'|].
    change (rotateName l w) with (rotateName l2 w).
    change (accepted l w) with (accepted l2 w). rewrite <- Hrotf.
    unfold writeRecord.
    destruct Hh' as (Hwr' & He' & _ & Hw'). rewrite <- Hwr' in Hw'.
    destruct (bufio_Write_ok (writer (rotating l2 w).1) (data (buffer r)) _ He' Hw')
      as (fl & b' & -> & _ & _ & _ & Hbytes).
    cbn [fst snd]. unfold readFile.
    destruct (appendTo_frame (wr (writer (rotating l2 w).1)) fl (rotating l2 w).2)
      as (-> & _).
    destruct (dir (rotating l2 w).2 !! rotateName l2 w) as [i|] eqn:Ei; [|reflexivity].
    cbn. apply appendTo_other_inode.
    intros k Hk Hfd.
    pose proof (rotating_attached l2 w n ino Hh2 Ha2) as Hexp. cbv zeta in Hexp.
    rewrite Hexp in Ei, Hk, Hfd. cbn in Ei, Hk, Hfd.
    destruct Ha2 as (_ & _ & Hdir & _ & Hlt & _).
    pose proof (Hlt _ _ Hdir).
    pose proof (rotateName_ne_File l2 w) as Hne. change (c l2) with (c l) in Hne.
    rewrite lookup_insert_ne in Ei by congruence.
    rewrite lookup_insert_eq in Ei. inversion Ei; subst i.
    inversion Hk; subst k. rewrite lookup_insert_eq in Hfd.
    inversion Hfd. lia.
Qed.

Lemma size_budget_law_witness :
  let st := WriteDirect record101 rotatingSink world3 in
  renames st.2 = [("app.log", "app.log..101542")]%string /\
  rotateRemain st.1 = 100 /\
  accepted st.1 st.2 = replicate 101 x2e.
Proof.
  assert (Hh : healthy rotatingSink world3).
  { repeat split; try reflexivity. exists 0%nat. split; [reflexivity|]. by eexists. }
  assert (Ha : attached rotatingSink world3 0 0).
  { unfold attached. split_and!; try done.
    - intros p Hp. unfold world3 in Hp. cbn [dir] in Hp.
      apply lookup_insert_Some in Hp as [[<- _]|[_ Hp]]; [done|].
      apply lookup_singleton_Some in Hp as [_ Hp]. discriminate Hp.
    - intros p i Hp. unfold world3 in Hp |- *. cbn [dir nextIno] in Hp |- *.
      apply lookup_insert_Some in Hp as [[_ <-]|[_ Hp]]; [lia|].
      apply lookup_singleton_Some in Hp as [_ <-]. lia. }
  destruct (size_budget_law record101 rotatingSink world3 0 0 eq_refl eq_refl eq_refl)
    as (_ & H).
  - unfold inInt64. vm_compute. split; [intros H'; discriminate H'|reflexivity].
  - destruct (H eq_refl) as (Hren & Hrest).
    destruct (Hrest Hh Ha) as (Hrem & Hacc & _).
    cbv zeta. split; [|split].
    + rewrite Hren. vm_compute. reflexivity.
    + exact Hrem.
    + exact Hacc.
Defined.

(** ** Construction and defaults *)

(** X8.  A configuration whose [File] is [stdout] or [stderr] in any
    capitalisation always yields a sink, without touching the file system,
    and that sink never rotates, whatever [RotateBytes] and [RotateCycle]
    say: it can write, its buffer is empty, and no run of direct writes on
    it renames anything. *)
Theorem std_stream_sinks_never_rotate (cfg : FileConfig) (w : World) (rs : list record) :
  ToLower (File cfg) = STDOUT \/ ToLower (File cfg) = STDERR ->
  exists l,
    NewFileLogger (Some cfg) w = (Ok l, w) /\
    file l = (if bool_decide (ToLower (File cfg) = STDOUT) then Stdout else Stderr) /\
    rotate l = false /\ healthy l w /\ wbuf (writer l) = [] /\
    renames (writeAll rs l w).2 = renames w.
Proof.
  intros Hstd. unfold NewFileLogger, ToFile.
  assert (Hsz : forall f, 0 < wsize (NewWriterSize f (BufferLength (mergeDefault (Some cfg))))).
  { intros f. pose proof (mergeDefault_period (Some cfg)).
    unfold NewWriterSize, mergeDefault. cbn [BufferLength wsize].
    destruct (BufferLength cfg <=? 0) eqn:E1; [reflexivity|].
    rewrite E1. apply Z.leb_gt in E1. lia. }
  destruct (bool_decide (ToLower (File cfg) = STDOUT)) eqn:E.
  - set (cm := mergeDefault (Some cfg)).
    cbn [bool_decide andb].
    destruct (DiscardThreshold cm <=? 0); eexists; (split; [reflexivity|]);
      cbn [file rotate writer];
      rewrite ?bool_decide_eq_false_2 by (intros H; by apply H); cbn [andb];
      (split; [reflexivity|]); (split; [reflexivity|]);
      match goal with |- healthy ?l w /\ _ =>
        assert (Hh : healthy l w) by (repeat split; apply Hsz) end;
      (split; [exact Hh|]); (split; [reflexivity|]);
      by destruct (writeAll_ok rs _ w Hh eq_refl) as (_ & _ & _ & ?).
  - destruct Hstd as [Hs|Hs]; [apply bool_decide_eq_false in E; by destruct E|].
    rewrite (bool_decide_eq_true_2 _ Hs).
    set (cm := mergeDefault (Some cfg)).
    destruct (DiscardThreshold cm <=? 0); eexists; (split; [reflexivity|]);
      cbn [file rotate writer];
      rewrite (bool_decide_eq_false_2 (Stderr ≠ Stderr)) by (intros H; by apply H);
      rewrite andb_false_r; cbn [andb];
      (split; [reflexivity|]); (split; [reflexivity|]);
      match goal with |- healthy ?l w /\ _ =>
        assert (Hh : healthy l w) by (repeat split; apply Hsz) end;
      (split; [exact Hh|]); (split; [reflexivity|]);
      by destruct (writeAll_ok rs _ w Hh eq_refl) as (_ & _ & _ & ?).
Qed.

Lemma std_stream_sinks_never_rotate_witness :
  exists l,
    NewFileLogger (Some shoutConfig) world3 = (Ok l, world3) /\
    file l = Stdout /\ rotate l = false /\
    renames (writeAll [record101; record101] l world3).2 = [].
Proof.
  destruct (std_stream_sinks_never_rotate shoutConfig world3 [record101; record101])
    as (l & H1 & H2 & H3 & _ & _ & H4).
  - left. reflexivity.
  - exists l. split; [exact H1|]. split; [exact H2|]. split; [exact H3|exact H4].
Defined.

(** X9.  [NewFileLogger] opens [c.File] before it merges the defaults, so a
    configuration with an empty [File] does not fall back to the standard
    output that [mergeDefault] would choose: the call returns the error of
    opening the empty path, no sink, and leaves the world as it was. *)
Theorem empty_File_is_an_error (cfg : FileConfig) (w : World) :
  File cfg = ""%string ->
  File (mergeDefault (Some cfg)) = STDOUT /\
  NewFileLogger (Some cfg) w = (Err (PathError "open" "" ErrNotExist), w).
Proof.
  intros H. split.
  - unfold mergeDefault. cbn [File]. by rewrite H.
  - unfold NewFileLogger, ToFile, os_OpenFile. rewrite H. reflexivity.
Qed.

Lemma empty_File_is_an_error_witness :
  NewFileLogger (Some zeroConfig) world0 = (Err (PathError "open" "" ErrNotExist), world0).
Proof. exact (proj2 (empty_File_is_an_error zeroConfig world0 eq_refl)). Defined.

(** X10.  [mergeDefault] is idempotent; its result has a non-empty [File]
    and positive [BufferLength], [BufferPeriod], [RecordLength] and
    [RecordFactor]; and on a non-nil argument it keeps [Level],
    [RotateBytes], [RotateCycle] and [DiscardThreshold] and every field it
    found set. *)
Theorem mergeDefault_fills_once (fs : option FileConfig) :
  let m := mergeDefault fs in
  mergeDefault (Some m) = m /\
  File m ≠ ""%string /\
  0 < BufferLength m /\ 0 < BufferPeriod m /\ 0 < RecordLength m /\ 0 < RecordFactor m /\
  forall c0, fs = Some c0 ->
    Level m = Level c0 /\ RotateBytes m = RotateBytes c0 /\
    RotateCycle m = RotateCycle c0 /\ DiscardThreshold m = DiscardThreshold c0 /\
    (File c0 ≠ ""%string -> File m = File c0) /\
    (0 < BufferLength c0 -> BufferLength m = BufferLength c0) /\
    (0 < BufferPeriod c0 -> BufferPeriod m = BufferPeriod c0) /\
    (0 < RecordLength c0 -> RecordLength m = RecordLength c0) /\
    (0 < RecordFactor c0 -> RecordFactor m = RecordFactor c0).
Proof.
  cbv zeta.
  assert (Hpos : forall x d, 0 < d -> 0 < (if x <=? 0 then d else x)).
  { intros x d Hd. destruct (x <=? 0) eqn:E; [exact Hd|by apply Z.leb_gt in E]. }
  assert (Hfix : forall x d, 0 < d ->
            (if (if x <=? 0 then d else x) <=? 0 then d else (if x <=? 0 then d else x)) =
            (if x <=? 0 then d else x)).
  { intros x d Hd. pose proof (Hpos x d Hd) as H.
    destruct ((if x <=? 0 then d else x) <=? 0) eqn:E; [apply Z.leb_le in E; lia|done]. }
  assert (Hkeep : forall x d, 0 < x -> (if x <=? 0 then d else x) = x).
  { intros x d Hx. destruct (x <=? 0) eqn:E; [apply Z.leb_le in E; lia|done]. }
  assert (Hfile : forall s : string,
            (if bool_decide (s = ""%string) then STDOUT else s) ≠ ""%string).
  { intros s. case_bool_decide; [discriminate|done]. }
  split; [|split; [|split; [|split; [|split; [|split]]]]].
  - unfold mergeDefault at 1. cbn [File Level RotateBytes RotateCycle BufferLength
      BufferPeriod RecordLength RecordFactor DiscardThreshold].
    set (c0 := match fs with Some c0 => c0 | None => zeroConfig end).
    unfold mergeDefault. fold c0.
    cbn [File Level RotateBytes RotateCycle BufferLength
      BufferPeriod RecordLength RecordFactor DiscardThreshold].
    rewrite !Hfix by reflexivity.
    rewrite (bool_decide_eq_false_2 _ (Hfile (File c0))). reflexivity.
  - apply Hfile.
  - apply Hpos. reflexivity.
  - apply Hpos. reflexivity.
  - apply Hpos. reflexivity.
  - apply Hpos. reflexivity.
  - intros c0 ->. unfold mergeDefault. cbn [File Level RotateBytes RotateCycle
      BufferLength BufferPeriod RecordLength RecordFactor DiscardThreshold].
    split_and!; try reflexivity.
    + intros H. by rewrite bool_decide_eq_false_2.
    + apply Hkeep.
    + apply Hkeep.
    + apply Hkeep.
    + apply Hkeep.
Qed.

(** ** Closing *)

(** X11.  [Close] does not flush.  On a file sink that can write and still
    holds bytes in its buffer, closing succeeds, the file keeps exactly the
    content it had, and a flush afterwards cannot deliver the buffered
    bytes any more: the write fails on the closed handle, the error stays
    pending in the writer, nothing is printed, and the file is
    unchanged. *)
Theorem Close_does_not_flush (l : fileLogger) (w : World) (n : nat) :
  healthy l w -> file l = Fd n -> wbuf (writer l) ≠ [] -> isClosed l = false ->
  exists l' w',
    Close l w = Some (l', w') /\
    inodes w' = inodes w /\ fds w' !! n = None /\
    let st := Flush l' w' in
    inodes st.2 = inodes w /\
    werr (writer st.1) = Some (PathError "write" (fileName (Fd n) w) ErrClosed) /\
    wbuf (writer st.1) = wbuf (writer l) /\
    stderr st.2 = stderr w.
Proof.
  intros (Hwr & He & Hsz & Hw) Hf Hbuf Hcl.
  assert (HC : exists d, Close l w = Some (set_discard d l, os_Close (Fd n) w)).
  { unfold Close, isClosed in *. rewrite Hf.
    destruct (discard l) as [ch|] eqn:Ed.
    - rewrite Hcl. cbn. eauto.
    - cbn. exists None. do 2 f_equal. destruct l; cbn in *; by subst. }
  destruct HC as [d HC]. eexists _, _. split; [exact HC|].
  split; [reflexivity|]. split; [apply lookup_delete_eq|].
  cbv zeta. unfold Flush, bufio_Flush, os_Sync.
  change (writer (set_discard d l)) with (writer l). rewrite He.
  destruct (Buffered (writer l) =? 0) eqn:Hb.
  { apply Z.eqb_eq in Hb. unfold Buffered in Hb.
    destruct (wbuf (writer l)); [done|cbn in Hb; lia]. }
  rewrite Hwr, Hf. unfold os_Write, os_Close.
  cbn [fds]. rewrite lookup_delete_eq. cbn. done.
Qed.

Lemma Close_does_not_flush_witness :
  exists l' w',
    Close pendingSink world2 = Some (l', w') /\
    readFile (Flush l' w').2 "app.log" = Some (bytes_of "old entry" ++ [x0a]) /\
    werr (writer (Flush l' w').1) = Some (PathError "write" "app.log" ErrClosed).
Proof.
  assert (H0 : healthy pendingSink world2).
  { repeat split; try reflexivity. exists 0%nat. split; [reflexivity|]. by eexists. }
  destruct (Close_does_not_flush pendingSink world2 0 H0 eq_refl)
    as (l' & w' & HC & _ & _ & Hin & He & _).
  - discriminate.
  - reflexivity.
  - exists l', w'. split; [exact HC|]. split; [|exact He].
    unfold readFile. rewrite Hin.
    assert (Hd : dir (Flush l' w').2 = dir world2).
    { vm_compute in HC. inversion HC; subst. reflexivity. }
    rewrite Hd. reflexivity.
Defined.

(** X12.  Closing twice: on a sink with a discard queue the second [Close]
    panics (it closes a closed channel), and a send through [WriteDiscard]
    after the first [Close] panics as well; on a sink without a queue the
    second [Close] changes nothing. *)
Theorem Close_twice (l l' : fileLogger) (w w' : World) :
  Close l w = Some (l', w') ->
  (discard l ≠ None ->
     Close l' w' = None /\ forall r, WriteDiscard r l' w' = None) /\
  (discard l = None -> Close l' w' = Some (l', w')).
Proof.
  unfold Close. intros H.
  destruct (discard l) as [ch|] eqn:Ed.
  - destruct (closed ch) eqn:Ec; [discriminate|]. cbn in H.
    inversion H; subst. split; [|done]. intros _.
    unfold WriteDiscard. cbn. done.
  - cbn in H. inversion H; subst. split; [done|]. intros _.
    rewrite Ed. cbn. do 2 f_equal.
    destruct (file l') as [| |n]; [done|done|].
    unfold os_Close. cbn. by rewrite delete_delete_eq.
Qed.

Lemma Close_twice_witness :
  exists l' w',
    Close (sinkOf discardConfig) world1 = Some (l', w') /\
    Close l' w' = None /\
    WriteDiscard (recordAt 1 t0 [x61]) l' w' = None.
Proof.
  destruct (Close (sinkOf discardConfig) world1) as [[l' w']|] eqn:E;
    [|vm_compute in E; discriminate E].
  destruct (Close_twice _ _ _ _ E) as [H _].
  destruct (H ltac:(discriminate)) as [H1 H2].
  exists l', w'. split; [reflexivity|]. split; [exact H1|apply H2].
Defined.

(** ** The queue *)




Lemma WriteDiscard_bounded r l w l' w' :
  WriteDiscard r l w = Some (l', w') -> queueBounded l -> queueBounded l'.
Proof.
  unfold WriteDiscard, queueBounded. intros H Hb.
  destruct (discard l) as [ch|] eqn:E; [|inversion H; subst; by rewrite E].
  destruct (closed ch); [discriminate|].
  destruct (_ <? _) eqn:Elt; inversion H; subst; cbn.
  - apply Z.ltb_lt in Elt. rewrite length_app. cbn. lia.
  - by rewrite E.
Qed.

Lemma protectLoop_bounded evs : forall l w,
  queueBounded l -> queueBounded (protectLoop evs l w).2.1.
Proof.
  induction evs as [|ev evs IH]; intros l w Hb; [exact Hb|]. cbn [protectLoop].
  destruct ev as [r| | | |v].
  - destruct (WriteDiscard r l w) as [[l1 w1]|] eqn:E; [|by apply IH].
    apply IH. by eapply WriteDiscard_bounded.
  - destruct (Close l w) as [[l1 w1]|] eqn:E; [|by apply IH].
    apply IH. unfold Close in E.
    destruct (discard l) as [ch|] eqn:Ed.
    + destruct (closed ch); [discriminate|]. cbn in E. inversion E; subst.
      unfold queueBounded in *. cbn. by rewrite Ed in Hb.
    + cbn in E. inversion E; subst. exact Hb.
  - destruct (discard l) as [[[|rc q] k [|]]|] eqn:E; try (by apply IH); [exact Hb| |].
    + pose proof (WriteDirect_discard rc (set_discard (Some (mkChan q k true)) l) w) as Hd.
      destruct (WriteDirect rc _ w) as [l1 w1]. apply IH.
      unfold queueBounded in *. cbn in Hd. rewrite Hd. rewrite E in Hb. cbn in *. lia.
    + pose proof (WriteDirect_discard rc (set_discard (Some (mkChan q k false)) l) w) as Hd.
      destruct (WriteDirect rc _ w) as [l1 w1]. apply IH.
      unfold queueBounded in *. cbn in Hd. rewrite Hd. rewrite E in Hb. cbn in *. lia.
  - pose proof (Flush_discard l w) as Hd.
    destruct (Flush l w) as [l1 w1]. apply IH.
    unfold queueBounded in *. cbn in Hd. by rewrite Hd.
  - exact Hb.
Qed.

(** X14.  In every run of the system (sends, closes, receives, ticks and
    faults in any order, through any number of restarts of the daemon) the
    queue never holds more records than its capacity. *)
Theorem queue_never_exceeds_capacity (fuel : nat) (tk : Z) (evs : list Event)
    (l : fileLogger) (w : World) :
  queueBounded l -> queueBounded (daemon fuel tk evs l w).2.1.
Proof.
  revert evs l w. induction fuel as [|fuel IH]; intros evs l w Hb; [exact Hb|].
  cbn [daemon]. unfold protectDaemon.
  destruct (tk <=? 0).
  - cbn. apply IH. exact Hb.
  - pose proof (protectLoop_bounded evs l w Hb) as Hb'.
    destruct (protectLoop evs l w) as [[[err|] evs1] [l1 w1]]; [|exact Hb'].
    destruct (bool_decide _); [exact Hb'|]. apply IH. exact Hb'.
Qed.

Lemma queue_never_exceeds_capacity_witness :
  queueBounded
    (daemon 8 defaultBufferPeriod
       (EvSend record101 :: EvSend record101 :: EvSend record101 :: daemonRun)
       (sinkOf discardConfig) world1).2.1.
Proof.
  apply queue_never_exceeds_capacity. unfold queueBounded. cbn. lia.
Defined.

(** ** Calendar rotation over several writes *)

Lemma WriteDirect_idle_sink r l w :
  rotationDue l r = false ->
  c (WriteDirect r l w).1 = c l /\ rotate (WriteDirect r l w).1 = rotate l /\
  (forall r', cycleDue (WriteDirect r l w).1 r' = cycleDue l r').
Proof.
  intros Hdue. rewrite WriteDirect_unfold.
  assert (H : c (beforeWrite r l w).1 = c l /\ rotate (beforeWrite r l w).1 = rotate l /\
              forall r', cycleDue (beforeWrite r l w).1 r' = cycleDue l r').
  { unfold rotationDue, sizeDue, beforeWrite in *.
    destruct (rotate l) eqn:Hr; [|done]. cbn in Hdue.
    destruct ((CycleOff <? RotateCycle (c l)) && cycleDue l r); [done|]. cbn in Hdue.
    destruct (0 <? RotateBytes (c l)); [|done]. cbn in Hdue. cbn.
    rewrite Hdue. cbn. done. }
  unfold writeRecord. destruct (bufio_Write _ _ _) as [[o b] w']. exact H.
Qed.

(** X15.  With a calendar cycle and no size rotation, records whose stored
    fields match the sink's snapshot never cause a rollover, however many
    are written and whatever the clock shows meanwhile. *)
Theorem same_period_never_rotates (rs : list record) (l : fileLogger) (w : World) :
  RotateBytes (c l) <= 0 ->
  Forall (fun r => cycleDue l r = false) rs ->
  renames (writeAll rs l w).2 = renames w.
Proof.
  intros Hrb. revert l w Hrb.
  induction rs as [|r rs IH]; intros l w Hrb Hall; [reflexivity|].
  apply Forall_cons in Hall as [Hr Hrs].
  assert (Hdue : rotationDue l r = false).
  { unfold rotationDue, sizeDue. rewrite Hr, andb_false_r. cbn.
    destruct (0 <? RotateBytes (c l)) eqn:E; [apply Z.ltb_lt in E; lia|].
    by rewrite andb_false_r. }
  destruct (WriteDirect_idle_sink r l w Hdue) as (Hc & _ & Hcy).
  rewrite writeAll_cons, IH.
  - rewrite WriteDirect_renames, Hdue. by rewrite app_nil_r.
  - by rewrite Hc.
  - eapply Forall_impl; [exact Hrs|]. intros r' Hr'. cbn in Hr'. by rewrite Hcy.
Qed.

Lemma same_period_never_rotates_witness :
  renames (writeAll [recordAt 1 t0 [x61]; record101; rec30 3 x63] dailySink world3).2 = [].
Proof.
  apply (same_period_never_rotates _ dailySink world3).
  - cbn. lia.
  - repeat constructor.
Defined.

(** X16.  A successful calendar rollover sets the snapshot from the clock,
    not from the record that caused it.  So after the rollover a record is
    due again exactly when its stored fields differ from the clock's: a
    record stamped in another period than the one the clock is in (one that
    waited in the queue across the boundary, say) causes a rollover on
    every write. *)
Theorem snapshot_follows_clock (r : record) (l : fileLogger) (w : World) (n ino : nat) :
  rotate l = true ->
  CycleOff < RotateCycle (c l) ->
  cycleDue l r = true ->
  healthy l w -> attached l w n ino ->
  let st := WriteDirect r l w in
  (forall r', cycleDue st.1 r' = cycleDue (snapshotAt (now w) l) r') /\
  (cycleDue (snapshotAt (now w) l) r = true ->
     forall w', length (renames (WriteDirect r st.1 w').2) = S (length (renames w'))).
Proof.
  intros Hrot Hcy Hdue Hh Ha. cbv zeta. apply Z.ltb_lt in Hcy.
  assert (Hst : forall r', cycleDue (WriteDirect r l w).1 r' =
                           cycleDue (snapshotAt (now w) l) r').
  { intros r'. rewrite WriteDirect_unfold. unfold beforeWrite.
    rewrite Hrot, Hcy, Hdue. cbn [andb].
    pose proof (rotating_attached l w n ino Hh Ha) as Hexp. cbv zeta in Hexp.
    rewrite Hexp. cbn [fst snd]. unfold writeRecord.
    destruct (bufio_Write _ _ _) as [[o b] w']. reflexivity. }
  split; [exact Hst|]. intros Hstale w'.
  assert (Hc : c (WriteDirect r l w).1 = c l /\ rotate (WriteDirect r l w).1 = rotate l).
  { rewrite WriteDirect_unfold. unfold beforeWrite.
    rewrite Hrot, Hcy, Hdue. cbn [andb].
    pose proof (rotating_attached l w n ino Hh Ha) as Hexp. cbv zeta in Hexp.
    rewrite Hexp. cbn [fst snd]. unfold writeRecord.
    destruct (bufio_Write _ _ _) as [[o b] w'']. split; [reflexivity|exact Hrot]. }
  destruct Hc as [Hc Hr].
  rewrite WriteDirect_renames. unfold rotationDue.
  rewrite Hr, Hrot, Hc, Hcy, Hst, Hstale. cbn [andb orb].
  rewrite length_app. cbn. lia.
Qed.

Lemma snapshot_follows_clock_witness :
  let stale := recordAt 1 t0 [x61] in
  let fresh := recordAt 2 t1 [x62] in
  let late := snapshotAt (mkTime 2024 3 14 23 59 59 4) dailySink in
  let st := WriteDirect stale late nextDayWorld in
  cycleDue st.1 fresh = false /\
  length (renames (WriteDirect stale st.1 st.2).2) = 2%nat.
Proof.
  intros stale fresh late st.
  assert (Hh : healthy late nextDayWorld).
  { repeat split; try reflexivity. exists 0%nat. split; [reflexivity|]. by eexists. }
  assert (Ha : attached late nextDayWorld 0 0).
  { unfold attached. split_and!; try done.
    - intros p Hp. unfold nextDayWorld, world3 in Hp. cbn [dir] in Hp.
      apply lookup_insert_Some in Hp as [[<- _]|[_ Hp]]; [done|].
      apply lookup_singleton_Some in Hp as [_ Hp]. discriminate Hp.
    - intros p i Hp. unfold nextDayWorld, world3 in Hp |- *. cbn [dir nextIno] in Hp |- *.
      apply lookup_insert_Some in Hp as [[_ <-]|[_ Hp]]; [lia|].
      apply lookup_singleton_Some in Hp as [_ <-]. lia. }
  destruct (snapshot_follows_clock stale late nextDayWorld 0 0 eq_refl eq_refl eq_refl Hh Ha)
    as [H1 H2].
  split.
  - subst st. rewrite H1. reflexivity.
  - subst st. rewrite (H2 eq_refl). vm_compute. reflexivity.
Defined.

(** ** The stack trace *)

Lemma PrintStack_preserves grow frames : forall skip r,
  addr (PrintStack grow frames skip r) = addr r /\
  (month (PrintStack grow frames skip r), week (PrintStack grow frames skip r),
   day (PrintStack grow frames skip r), hour (PrintStack grow frames skip r)) =
  (month r, week r, day r, hour r).
Proof.
  induction frames as [|[file line] frames IH]; intros skip r; [done|].
  cbn [PrintStack]. destruct (String.index 0 "/src/runtime/" file); [apply IH|].
  destruct (0 <? skip); [apply IH|]. exact (IH _ _).
Qed.

(** X17.  [PrintStack] appends to the buffer, after what is there, one
    [file:line|] for each frame that is not in the runtime's sources,
    leaving out the first [skip] of those; it adds no line terminator, so a
    trace with at least one frame leaves the entry ending in the separator.
    The record's address and calendar fields are untouched. *)
Theorem PrintStack_layout grow (frames : list (string * Z)) (skip : Z) (r : record) :
  data (buffer (PrintStack grow frames skip r)) =
    data (buffer r) ++ concat (map frameText (shownFrames frames skip)) /\
  (shownFrames frames skip ≠ [] ->
     last (data (buffer (PrintStack grow frames skip r))) = Some stackLineSeparator) /\
  addr (PrintStack grow frames skip r) = addr r /\
  (month (PrintStack grow frames skip r), week (PrintStack grow frames skip r),
   day (PrintStack grow frames skip r), hour (PrintStack grow frames skip r)) =
  (month r, week r, day r, hour r).
Proof.
  assert (Hdata : forall fs sk r0,
    data (buffer (PrintStack grow fs sk r0)) =
      data (buffer r0) ++ concat (map frameText (shownFrames fs sk))).
  { clear. intros fs. induction fs as [|[file line] frames IH]; intros skip r.
    - unfold shownFrames. cbn. by rewrite drop_nil, app_nil_r.
    - cbn [PrintStack]. unfold shownFrames, runtimeFrame in *. cbn [List.filter fst].
      destruct (String.index 0 "/src/runtime/" file); cbn [negb]; [apply IH|].
      destruct (0 <? skip) eqn:E.
      + apply Z.ltb_lt in E. rewrite IH.
        replace (Z.to_nat skip) with (S (Z.to_nat (skip - 1))) by lia. reflexivity.
      + apply Z.ltb_ge in E. rewrite IH. cbn [set_buffer buffer].
        rewrite !append_data.
        replace (Z.to_nat skip) with 0%nat by lia. rewrite !drop_0.
        cbn [map concat]. unfold frameText at 2. cbn [fst snd].
        by rewrite <- !app_assoc. }
  split; [apply Hdata|]. split; [|apply PrintStack_preserves].
  intros Hne. rewrite Hdata.
  destruct (shownFrames frames skip) as [|f fs] using rev_ind; [done|].
  rewrite map_app, concat_app. cbn. unfold frameText at 2.
  rewrite app_nil_r, !app_assoc. apply last_snoc.
Qed.

Lemma PrintStack_layout_witness :
  data (buffer (PrintStack growDouble someStack skipBase (recordAt 1 t0 [x68; x69; x0a]))) =
    [x68; x69; x0a] ++ bytes_of "/app/main.go:17|/app/boot.go:3|".
Proof.
  rewrite (proj1 (PrintStack_layout growDouble someStack skipBase _)). reflexivity.
Defined.

(** ** Names of levels and cycles *)



Lemma isASCII_lowerAscii a :
  (nat_of_ascii (lowerAscii a) <? 128)%nat = (nat_of_ascii a <? 128)%nat.
Proof. destruct a as [[] [] [] [] [] [] [] []]; reflexivity. Qed.

Lemma isASCII_ToLower s : isASCII (ToLower s) = isASCII s.
Proof.
  induction s as [|a s IH]; [reflexivity|]. cbn [ToLower isASCII].
  by rewrite isASCII_lowerAscii, IH.
Qed.

(** [ToFile] makes the same choice with the library's lowering in place
    of [ToLower], whatever the Unicode path does, as long as that path
    never turns a string into [stdout] or [stderr]. *)
Lemma ToFile_lowering (mapLower : string -> string) (path : string) (w : World) :
  (isASCII path = false -> mapLower path ≠ STDOUT /\ mapLower path ≠ STDERR) ->
  (let l := strings_ToLower mapLower path in
   if bool_decide (l = STDOUT) then (inl Stdout, w)
   else if bool_decide (l = STDERR) then (inl Stderr, w)
   else os_OpenFile path w) = ToFile path w.
Proof.
  intros Hmap. cbv zeta. unfold ToFile, strings_ToLower.
  destruct (isASCII path) eqn:Ha; [reflexivity|].
  destruct (Hmap eq_refl) as [H1 H2].
  assert (H3 : ToLower path ≠ STDOUT).
  { intros H. pose proof (isASCII_ToLower path) as Hl. rewrite H, Ha in Hl. discriminate Hl. }
  assert (H4 : ToLower path ≠ STDERR).
  { intros H. pose proof (isASCII_ToLower path) as Hl. rewrite H, Ha in Hl. discriminate Hl. }
  by rewrite !bool_decide_eq_false_2.
Qed.



(** ** The pool over a run *)

(** X20.  From a pool that holds only records below the threshold (the
    empty pool of [createRecords] is one), every run of the pool keeps it
    so, keeps the threshold, and every record a [Get] of the run obtains
    has an empty buffer. *)
Theorem pool_holds_only_small (ops : list PoolOp) (rs : records) :
  Forall (fun x => cap (buffer x) < threshold rs) (pool rs) ->
  Forall (fun x => cap (buffer x) < threshold rs) (pool (runPool ops rs).2) /\
  threshold (runPool ops rs).2 = threshold rs /\
  Forall (fun x => data (buffer x) = []) (runPool ops rs).1.
Proof.
  revert rs. induction ops as [|op ops IH]; intros rs Hinv; [by repeat split|].
  destruct op as [pick|r|i]; cbn [runPool].
  - unfold Get.
    destruct (poolGet pick rs) as [[r0 rs']|] eqn:E; cbn [mbind option_bind];
      [|by apply IH].
    assert (Hrs : threshold rs' = threshold rs /\
                  Forall (fun x => cap (buffer x) < threshold rs) (pool rs')).
    { unfold poolGet, poolNew in E.
      destruct pick as [i|]; [destruct (pool rs !! i) eqn:Ei|];
        try (destruct (recordBytes rs <? 0); [discriminate|]);
        inversion E; subst; cbn; (split; [reflexivity|]); try exact Hinv.
      apply Forall_forall. intros x Hx. rewrite Forall_forall in Hinv.
      apply Hinv. by eapply list_elem_of_delete_inv. }
    destruct Hrs as [Hth Hinv'].
    destruct (IH rs' ltac:(by rewrite Hth)) as (H1 & H2 & H3).
    destruct (runPool ops rs') as [got rs'']. cbn in *.
    rewrite H2, Hth in *. repeat split; try done. by constructor.
  - assert (Hth : threshold (Put r rs) = threshold rs)
      by (unfold Put, poolPut; by destruct (_ <? _)).
    destruct (IH (Put r rs)) as (H1 & H2 & H3).
    + rewrite Hth. unfold Put, poolPut.
      destruct (cap (buffer r) <? threshold rs) eqn:E; [|exact Hinv].
      cbn. constructor; [by apply Z.ltb_lt|exact Hinv].
    + rewrite H2, Hth in *. done.
  - destruct (IH (evict i rs)) as (H1 & H2 & H3).
    + cbn. apply Forall_forall. intros x Hx. rewrite Forall_forall in Hinv.
      apply Hinv. by eapply list_elem_of_delete_inv.
    + cbn in *. done.
Qed.

Lemma pool_holds_only_small_witness :
  Forall (fun x => cap (buffer x) < 20480) (pool (runPool poolRun poolAfterFirstGet).2).
Proof.
  destruct (pool_holds_only_small poolRun poolAfterFirstGet) as [H _].
  - constructor.
  - exact H.
Defined.

(** X21.  A record below the threshold that is put back is what the next
    [Get] that takes the newest held record returns: the same address, the
    same capacity, header bytes and calendar fields, with the buffer cut to
    length zero; and the pool is as it was before the [Put]. *)
Theorem Put_then_Get (r : record) (rs : records) :
  cap (buffer r) < threshold rs ->
  Get (Some 0%nat) (Put r rs) = Some (set_buffer (reslice0 (buffer r)) r, rs).
Proof.
  intros H. unfold Put.
  destruct (cap (buffer r) <? threshold rs) eqn:E; [|apply Z.ltb_ge in E; lia].
  unfold Get, poolGet, poolPut. cbn. by destruct rs.
Qed.

Lemma Put_then_Get_witness :
  Get (Some 0%nat) (Put (recordAt 1 t0 [x61]) poolAfterFirstGet) =
    Some (recordAt 1 t0 [], poolAfterFirstGet).
Proof.
  rewrite (Put_then_Get (recordAt 1 t0 [x61]) poolAfterFirstGet); [reflexivity|].
  vm_compute. reflexivity.
Defined.

(** ** A whole logging call *)



(** ** The year in the header *)

Lemma digit_range d b : digit d = Some b -> 0 <= d < 10.
Proof.
  unfold digit. destruct (d <? 0) eqn:E1; [discriminate|].
  destruct (10 <=? d) eqn:E2; [discriminate|]. intros _.
  apply Z.ltb_ge in E1. apply Z.leb_gt in E2. lia.
Qed.

(** X23.  With month, day, hour, minute and second in their ranges,
    [Header] panics (an index outside the digit table) exactly when the
    year is negative or above 9999. *)
Theorem Header_year_bound grow (t : Time) (lv : Z) (r : record) :
  1 <= t_month t <= 12 -> 1 <= t_day t <= 31 -> 0 <= t_hour t <= 23 ->
  0 <= t_minute t <= 59 -> 0 <= t_second t <= 59 ->
  (Header grow t lv r = None <-> t_year t < 0 \/ 9999 < t_year t).
Proof.
  intros Hm Hd Hh Hi Hs. unfold Header. cbv zeta.
  rewrite !(Z.rem_mod_nonneg (t_month t)), !(Z.quot_div_nonneg (t_month t)),
    !(Z.rem_mod_nonneg (t_day t)), !(Z.quot_div_nonneg (t_day t)),
    !(Z.rem_mod_nonneg (t_hour t)), !(Z.quot_div_nonneg (t_hour t)),
    !(Z.rem_mod_nonneg (t_minute t)), !(Z.quot_div_nonneg (t_minute t)),
    !(Z.rem_mod_nonneg (t_second t)), !(Z.quot_div_nonneg (t_second t)) by lia.
  rewrite !(digit_ok (_ `div` 10)), !(digit_ok (_ `mod` 10)) by div_lia.
  destruct (digit (t_year t `quot` 1000)) as [y3|] eqn:E3.
  2:{ cbn. split; [intros _|done].
      destruct (decide (0 <= t_year t <= 9999)) as [Hy|Hy]; [|lia].
      rewrite Z.quot_div_nonneg, digit_ok in E3 by div_lia. discriminate. }
  destruct (digit ((t_year t `rem` 1000) `quot` 100)) as [y2|] eqn:E2.
  2:{ cbn. split; [intros _|done].
      destruct (decide (0 <= t_year t <= 9999)) as [Hy|Hy]; [|lia].
      rewrite Z.rem_mod_nonneg, Z.quot_div_nonneg, digit_ok in E2 by div_lia.
      discriminate. }
  destruct (digit (((t_year t `rem` 1000) `rem` 100) `quot` 10)) as [y1|] eqn:E1.
  2:{ cbn. split; [intros _|done].
      destruct (decide (0 <= t_year t <= 9999)) as [Hy|Hy]; [|lia].
      rewrite !Z.rem_mod_nonneg, Z.quot_div_nonneg, digit_ok in E1 by div_lia.
      discriminate. }
  destruct (digit (((t_year t `rem` 1000) `rem` 100) `rem` 10)) as [y0|] eqn:E0.
  2:{ cbn. split; [intros _|done].
      destruct (decide (0 <= t_year t <= 9999)) as [Hy|Hy]; [|lia].
      rewrite !Z.rem_mod_nonneg, digit_ok in E0 by div_lia. discriminate. }
  cbn. destruct (levelStores lv) as [ws n]. split; [discriminate|].
  apply digit_range in E3, E2, E1, E0. intros Hy. exfalso.
  revert E3 E2 E1 E0 Hy. generalize (t_year t). clear. intros y.
  Z.to_euclidean_division_equations. lia.
Qed.

Lemma Header_year_bound_witness :
  Header growDouble t10000 LevelInfo record0 = None.
Proof.
  apply (Header_year_bound growDouble t10000 LevelInfo record0); cbn; lia.
Defined.

(** ** The package's logger *)

(** X24.  The package starts with a logger on the standard output that
    lets every level through, writes directly and never rotates; and
    [InitLogger] delivers what the logger in place still held in its buffer
    to that logger's destination before the new logger takes its place,
    renaming nothing. *)
Theorem default_logger_and_swap (w : World) (lgr : option fileLogger) :
  exists l,
    init_logger w = (Some l, w) /\
    file l = Stdout /\ level l = LevelDebug /\ Write l = UseWriteDirect /\
    rotate l = false /\ healthy l w /\
    forall old w0,
      healthy old w0 ->
      (InitLogger lgr (Some old) w0).1 = lgr /\
      written (file old) (InitLogger lgr (Some old) w0).2 = accepted old w0 /\
      renames (InitLogger lgr (Some old) w0).2 = renames w0.
Proof.
  eexists. split; [reflexivity|]. cbn [file level Write rotate].
  repeat (split; [reflexivity|]).
  split; [by repeat split|].
  intros old w0 Hh. unfold InitLogger. cbn [fst snd].
  destruct (Flush_ok old w0 Hh) as (Hw & _ & _ & Hren). by repeat split.
Qed.

(** ** A flush that fails *)

(** X25.  [Flush] gives no sign of a failure.  When the disk is full and
    the buffer holds bytes, [Flush] prints nothing and leaves the bytes in
    the buffer with the error pending.  The failure shows at the next
    direct write for which no rollover is due, whether or not the sink
    rotates: that write prints the error and does not take its record's
    bytes. *)
Theorem failed_flush_shows_on_next_write (r : record) (l : fileLogger) (w : World)
    (n ino : nat) :
  wr (writer l) = Fd n -> fds w !! n = Some ino -> diskFull w = true ->
  werr (writer l) = None -> wbuf (writer l) ≠ [] ->
  rotationDue l r = false ->
  let e := PathError "write" (fileName (Fd n) w) ErrNoSpace in
  let st := Flush l w in
  st.2 = w /\
  werr (writer st.1) = Some e /\ wbuf (writer st.1) = wbuf (writer l) /\
  let st' := WriteDirect r st.1 st.2 in
  st'.2 = eprint ("logger write error: " +:+ errorText e) w /\
  writer st'.1 = writer st.1.
Proof.
  intros Hwr Hfd Hfull He Hbuf Hrot. cbv zeta.
  assert (HF : Flush l w =
    (set_writer (mkWriter (Fd n) (wbuf (writer l)) (wsize (writer l))
                   (Some (PathError "write" (fileName (Fd n) w) ErrNoSpace))) l, w)).
  { unfold Flush, bufio_Flush, os_Sync. rewrite He.
    destruct (Buffered (writer l) =? 0) eqn:Hb.
    { apply Z.eqb_eq in Hb. unfold Buffered in Hb.
      destruct (wbuf (writer l)); [done|cbn in Hb; lia]. }
    rewrite Hwr. unfold os_Write. rewrite Hfd, Hfull. reflexivity. }
  rewrite HF. cbn [fst snd]. split; [reflexivity|].
  split; [reflexivity|]. split; [reflexivity|].
  set (l1 := set_writer _ l).
  assert (Hdue : rotationDue l1 r = false) by exact Hrot.
  rewrite WriteDirect_unfold.
  destruct (beforeWrite_idle r l1 w Hdue) as (Hw & Hwri & _).
  unfold writeRecord. rewrite Hwri, Hw.
  rewrite (bufio_Write_pending (writer l1) _ _ _ eq_refl). cbn.
  split; reflexivity.
Qed.

(** On the sink without rotation, and on the size-rotating sink for a
    record within its budget. *)
Lemma failed_flush_shows_on_next_write_witness :
  let r := recordAt 1 t0 [x68; x69; x0a] in
  (let st := Flush pendingSink fullDiskWorld in
   stderr st.2 = [] /\
   stderr (WriteDirect r st.1 st.2).2 =
     bytes_of "logger write error: write app.log: no space left on device") /\
  (let st := Flush rotatingSink fullDiskWorld in
   stderr st.2 = [] /\
   stderr (WriteDirect r st.1 st.2).2 =
     bytes_of "logger write error: write app.log: no space left on device").
Proof.
  intros r. split.
  - destruct (failed_flush_shows_on_next_write r pendingSink fullDiskWorld 0 0
                eq_refl eq_refl eq_refl eq_refl) as (Hw & _ & _ & Hw' & _).
    + discriminate.
    + reflexivity.
    + cbv zeta. rewrite Hw' , Hw. split; reflexivity.
  - destruct (failed_flush_shows_on_next_write r rotatingSink fullDiskWorld 0 0
                eq_refl eq_refl eq_refl eq_refl) as (Hw & _ & _ & Hw' & _).
    + discriminate.
    + reflexivity.
    + cbv zeta. rewrite Hw' , Hw. split; reflexivity.
Defined.

(** ** A logging call with a stack trace *)

Lemma PrintStack_data grow : forall fs sk r0,
  data (buffer (PrintStack grow fs sk r0)) =
    data (buffer r0) ++ concat (map frameText (shownFrames fs sk)).
Proof.
  intros fs. induction fs as [|[file line] fs IH]; intros skip r.
  - unfold shownFrames. cbn. by rewrite drop_nil, app_nil_r.
  - cbn [PrintStack]. unfold shownFrames, runtimeFrame in *. cbn [List.filter fst].
    destruct (String.index 0 "/src/runtime/" file); cbn [negb]; [apply IH|].
    destruct (0 <? skip) eqn:E.
    + apply Z.ltb_lt in E. rewrite IH.
      replace (Z.to_nat skip) with (S (Z.to_nat (skip - 1))) by lia. reflexivity.
    + apply Z.ltb_ge in E. rewrite IH. cbn [set_buffer buffer].
      rewrite !append_data.
      replace (Z.to_nat skip) with 0%nat by lia. rewrite !drop_0.
      cbn [map concat]. unfold frameText at 2. cbn [fst snd].
      by rewrite <- !app_assoc.
Qed.

(** X26.  [ErrorStack] on a direct sink without rotation that can write,
    with a valid clock.  Above the error level the call does nothing.
    Otherwise it does not panic and the sink has accepted one more entry:
    the entry [Error] would write, line terminator included, and after it
    the trace of the frames outside the runtime without the first
    [skipBase] of them.  The trace comes after the line terminator and has
    none of its own, so with a frame to show the accepted bytes end in the
    separator and the next entry starts on the same line.  Nothing is
    renamed. *)
Theorem ErrorStack_trace_after_newline grow (k : Call) (l : fileLogger) (w : World) :
  Write l = UseWriteDirect ->
  healthy l w -> rotate l = false ->
  validTime (now w) ->
  0 <= recordBytes (recs l) ->
  Forall (fun r => length (header r) = headerLength) (pool (recs l)) ->
  (LevelError < level l -> ErrorStack grow k l w = Some (l, w)) /\
  (level l <= LevelError ->
   exists l' w',
     ErrorStack grow k l w = Some (l', w') /\
     accepted l' w' =
       accepted l w ++ entryText LevelError k (now w) ++
       concat (map frameText (shownFrames (frames k) skipBase)) /\
     (shownFrames (frames k) skipBase ≠ [] ->
        last (accepted l' w') = Some stackLineSeparator) /\
     renames w' = renames w).
Proof.
  intros HW Hh Hrot Ht Hrb Hpool. split.
  { intros Hlv. unfold ErrorStack.
    destruct (level l <=? LevelError) eqn:E; [apply Z.leb_le in E; lia|reflexivity]. }
  intros Hlv. unfold ErrorStack.
  destruct (level l <=? LevelError) eqn:E; [|apply Z.leb_gt in E; lia]. clear E.
  destruct (Get_spec (pick k) (recs l) Hrb) as (r0 & rs' & HG & Hd & _ & _ & Hcase).
  assert (Hhd : length (header r0) = headerLength).
  { destruct Hcase as [(i & r1 & _ & Hl & Hr & _)|(Hr & _)]; subst r0; [|reflexivity].
    cbn. rewrite Forall_forall in Hpool. apply Hpool.
    eapply list_elem_of_lookup_2; eauto. }
  destruct (Header_renders grow (now w) LevelError r0 Ht Hhd) as (r1 & HH & Hdata & _).
  unfold fmtRecord. rewrite HG. cbn [mbind option_bind]. rewrite HH.
  cbn [mbind option_bind]. unfold Write_call.
  change (Write (set_recs rs' l)) with (Write l). rewrite HW.
  set (r2 := Printf grow (msg k) (Location grow (caller k) r1)).
  set (r3 := PrintStack grow (frames k) skipBase r2).
  set (l2 := set_recs rs' l).
  assert (Hh2 : healthy l2 w) by exact Hh.
  assert (Hdue : rotationDue l2 r3 = false).
  { unfold rotationDue. change (rotate l2) with (rotate l). by rewrite Hrot. }
  destruct (WriteDirect_idle r3 l2 w Hh2 Hdue) as (Hacc & _ & _ & _ & Hren).
  assert (Htext : accepted (WriteDirect r3 l2 w).1 (WriteDirect r3 l2 w).2 =
            accepted l w ++ entryText LevelError k (now w) ++
            concat (map frameText (shownFrames (frames k) skipBase))).
  { rewrite Hacc. change (accepted l2 w) with (accepted l w).
    f_equal. unfold r3. rewrite PrintStack_data. f_equal.
    unfold r2. rewrite Printf_data. unfold Location, entryText.
    destruct (default ("???"%string, 1) (caller k)) as [file line].
    cbn [set_buffer buffer]. rewrite !append_data, Hdata, Hd. cbn [app].
    by rewrite <- !app_assoc. }
  exists (WriteDirect r3 l2 w).1, (WriteDirect r3 l2 w).2.
  split; [by destruct (WriteDirect r3 l2 w)|].
  split; [exact Htext|]. split; [|exact Hren].
  intros Hne. rewrite Htext.
  destruct (shownFrames (frames k) skipBase) as [|f fs _] using rev_ind; [done|].
  rewrite map_app, concat_app. cbn [map concat]. unfold frameText at 2.
  rewrite app_nil_r, !app_assoc. apply last_snoc.
Qed.

Lemma ErrorStack_trace_after_newline_witness :
  exists l' w',
    ErrorStack growDouble stackCall pendingSink world2 = Some (l', w') /\
    accepted l' w' =
      bytes_of "old entry" ++ [x0a; x41; x42; x0a] ++
      bytes_of "2024-03-15 10:15:42 ERROR main.go:42 - boom" ++ [x0a] ++
      bytes_of "/app/main.go:17|/app/boot.go:3|".
Proof.
  assert (H0 : healthy pendingSink world2).
  { repeat split; try reflexivity. exists 0%nat. split; [reflexivity|]. by eexists. }
  destruct (ErrorStack_trace_after_newline growDouble stackCall pendingSink world2)
    as [_ H].
  - reflexivity.
  - exact H0.
  - reflexivity.
  - unfold validTime. cbn. lia.
  - cbn. lia.
  - constructor.
  - destruct H as (l' & w' & HE & Hacc & _); [vm_compute; discriminate|].
    exists l', w'. split; [exact HE|]. rewrite Hacc. reflexivity.
Defined.

(** ** A rollover with an error pending *)

Lemma rotating_pending l w n ino e :
  werr (writer l) = Some e -> attached l w n ino ->
  let rn := rotateName l w in
  rotating l w =
    (reopened (Fd (nextFd w)) (now w) l,
     mkWorld (<[File (c l) := nextIno w]> (<[rn := ino]> (delete (File (c l)) (dir w))))
             (<[nextIno w := []]> (inodes w))
             (<[nextFd w := nextIno w]> (delete n (fds w)))
             (<[nextFd w := File (c l)]> (names w))
             (S (nextIno w)) (S (nextFd w)) (now w) (stdout w) (stderr w)
             (renames w ++ [(File (c l), rn)]) (denied w) (diskFull w)).
Proof.
  intros He (Hf & Hfd & Hdir & Hinj & Hlt & Hne & Hden & Hso & Hse) rn.
  unfold rotating. fold rn. unfold bufio_Flush. rewrite He.
  set (l1 := set_writer (writer l) l).
  change (c l1) with (c l). change (file l1) with (file l). rewrite Hf.
  unfold os_Close, os_Rename. cbn [dir inodes fds names nextIno nextFd now stdout stderr
    renames denied diskFull]. rewrite Hdir.
  unfold ToFile. rewrite !bool_decide_eq_false_2 by assumption.
  unfold os_OpenFile. cbn [dir inodes fds names nextIno nextFd now stdout stderr
    renames denied diskFull].
  rewrite !bool_decide_eq_false_2 by assumption.
  rewrite lookup_insert_ne by apply rotateName_ne_File.
  rewrite lookup_delete_eq. reflexivity.
Qed.

(** X27.  [rotating] does not look at the result of the writer's flush.
    With an error pending in the writer, a rollover of an attached sink
    drops the bytes the writer still holds, and says nothing: the rotated
    file holds what the active file held and no more, the configured path
    names a new empty file, the sink comes out on a new writer that is
    empty and has no error pending, every other path keeps its content,
    and nothing is printed. *)
Theorem rollover_drops_unflushed (l : fileLogger) (w : World) (n ino : nat) (e : error) :
  werr (writer l) = Some e ->
  attached l w n ino ->
  let st := rotating l w in
  readFile st.2 (rotateName l w) = readFile w (File (c l)) /\
  readFile st.2 (File (c l)) = Some [] /\
  (forall p, p ≠ File (c l) -> p ≠ rotateName l w -> readFile st.2 p = readFile w p) /\
  werr (writer st.1) = None /\ wbuf (writer st.1) = [] /\
  wr (writer st.1) = file st.1 /\ accepted st.1 st.2 = [] /\
  renames st.2 = renames w ++ [(File (c l), rotateName l w)] /\
  stderr st.2 = stderr w /\ stdout st.2 = stdout w.
Proof.
  intros He Ha. pose proof (rotating_pending l w n ino e He Ha) as Hrot.
  cbv zeta in Hrot |- *. rewrite Hrot. clear Hrot.
  destruct Ha as (Hf & Hfd & Hdir & Hinj & Hlt & Hne & Hden & Hso & Hse).
  pose proof (rotateName_ne_File l w) as Hrn.
  pose proof (Hlt _ _ Hdir) as Hino.
  cbn [fst snd]. unfold readFile. cbn [dir inodes].
  split_and!.
  - rewrite lookup_insert_ne by congruence. rewrite lookup_insert_eq, Hdir. cbn.
    by rewrite lookup_insert_ne by lia.
  - rewrite lookup_insert_eq. cbn. by rewrite lookup_insert_eq.
  - intros p Hp1 Hp2.
    rewrite !lookup_insert_ne by congruence. rewrite lookup_delete_ne by congruence.
    destruct (dir w !! p) as [i|] eqn:Ei; [|reflexivity]. cbn.
    pose proof (Hlt _ _ Ei).
    by rewrite lookup_insert_ne by lia.
  - reflexivity.
  - reflexivity.
  - reflexivity.
  - unfold accepted, written, reopened, NewWriterSize.
    cbn [file writer wbuf fds inodes]. rewrite !lookup_insert_eq. reflexivity.
  - reflexivity.
  - reflexivity.
  - reflexivity.
Qed.

(** The size-rotating sink of [world3] with three bytes buffered behind a
    disk error: after the rollover they are in neither file. *)
Lemma rollover_drops_unflushed_witness :
  let st := rotating brokenRotatingSink world3 in
  readFile st.2 "app.log..101542" = Some (bytes_of "old entry" ++ [x0a]) /\
  readFile st.2 "app.log" = Some [] /\
  wbuf (writer st.1) = [] /\ stderr st.2 = [].
Proof.
  assert (Ha : attached brokenRotatingSink world3 0 0).
  { unfold attached. split_and!; try done.
    - intros p Hp. unfold world3 in Hp. cbn [dir] in Hp.
      apply lookup_insert_Some in Hp as [[<- _]|[_ Hp]]; [done|].
      apply lookup_singleton_Some in Hp as [_ Hp]. discriminate Hp.
    - intros p i Hp. unfold world3 in Hp |- *. cbn [dir nextIno] in Hp |- *.
      apply lookup_insert_Some in Hp as [[_ <-]|[_ Hp]]; [lia|].
      apply lookup_singleton_Some in Hp as [_ <-]. lia. }
  destruct (rollover_drops_unflushed brokenRotatingSink world3 0 0 _ eq_refl Ha)
    as (Hrot & Hact & _ & _ & Hbuf & _ & _ & _ & Herr & _).
  assert (E : rotateName brokenRotatingSink world3 = "app.log..101542"%string)
    by (vm_compute; reflexivity).
  rewrite E in Hrot. cbv zeta. split_and!.
  - rewrite Hrot. reflexivity.
  - exact Hact.
  - exact Hbuf.
  - rewrite Herr. reflexivity.
Defined.
